(** * Actinium: the event buffer and flush protocol of [Profiler.py]

    A shallow embedding of the classes [Event] and [Profiler] of
    [src/Profiler.py].  Python methods become computations in a state and
    exception monad whose state survives a raised exception, as the
    attributes of a Python object do.

    Time.  [time.perf_counter()] and [datetime.datetime.now()] are oracles
    held in the state: the k-th call returns the k-th reading.  Readings and
    datetimes are integers counted in microseconds, the resolution of
    [datetime]; [timedelta(seconds=a-b)] is then the difference [a - b].

    Store.  The psycopg2 connection is an in-memory connection that logs
    the statements executed in the open transaction and those committed.
    A fault plan decides which of its [execute] and [commit] calls raise. *)

From stdpp Require Import base numbers list strings sorting gmap pretty.

(** ** Results and the monad *)

Inductive exn : Type :=
| KeyError (key : string)
| IndexError
| TypeError
| InterfaceError      (* psycopg2: the connection is closed *)
| DatabaseError.      (* psycopg2: the statement or the commit failed *)

Inductive result (A : Type) : Type :=
| Ok (a : A)
| Raise (e : exn).
Arguments Ok {A} a.
Arguments Raise {A} e.

Definition M (S A : Type) : Type := S → result A * S.

Definition ret {S A} (a : A) : M S A := λ s, (Ok a, s).

Definition bind {S A B} (m : M S A) (k : A → M S B) : M S B :=
  λ s, match m s with
       | (Ok a, s') => k a s'
       | (Raise e, s') => (Raise e, s')
       end.

Definition raise {S A} (e : exn) : M S A := λ s, (Raise e, s).
Definition gets {S A} (f : S → A) : M S A := λ s, (Ok (f s), s).
Definition modify {S} (f : S → S) : M S unit := λ s, (Ok tt, f s).

Notation "x <- m ;; k" := (bind m (λ x, k))
  (at level 100, m at next level, right associativity).
Notation "m ;; k" := (bind m (λ _, k))
  (at level 100, right associativity).

(** [for i in l: body(i)] *)
Fixpoint for_each {S A} (l : list A) (body : A → M S unit) : M S unit :=
  match l with
  | [] => ret tt
  | i :: l' => body i ;; for_each l' body
  end.

(** ** Python lists: indexing with negative indices, and the slice [l[-1:]] *)

Definition py_index {A} (l : list A) (i : Z) : option nat :=
  let n := Z.of_nat (length l) in
  let j := if (i <? 0)%Z then (i + n)%Z else i in
  if ((0 <=? j)%Z && (j <? n)%Z)%bool then Some (Z.to_nat j) else None.

(** [l[i]], raising IndexError out of range *)
Definition getitem {S A} (l : list A) (i : Z) : M S A :=
  match py_index l i ≫= (l !!.) with
  | Some x => ret x
  | None => raise IndexError
  end.

(** [l[-1:]] *)
Definition slice_last {A} (l : list A) : list A := drop (length l - 1) l.

(** ** The clocks *)

Record Clock := mkClock {
  perf : nat → Z;          (* readings of time.perf_counter() *)
  perf_reads : nat;
  wall : nat → Z;          (* readings of datetime.datetime.now() *)
  wall_reads : nat;
}.

Definition perf_counter : M Clock Z :=
  λ c, (Ok (perf c (perf_reads c)),
        mkClock (perf c) (S (perf_reads c)) (wall c) (wall_reads c)).

Definition datetime_now : M Clock Z :=
  λ c, (Ok (wall c (wall_reads c)),
        mkClock (perf c) (perf_reads c) (wall c) (S (wall_reads c))).

(** ** class Event *)

Module Event.

Record t := mk {
  state : string;
  comment : option string;
  records : option Z;
  start : Z;
  end_ : option Z;
}.

Definition __init__ (state : string) (comment : option string)
    (records : option Z) : M Clock t :=
  now <- perf_counter ;;
  ret (mk state comment records now None).

Definition set_end (self : t) (counter : Z) : t :=
  mk (state self) (comment self) (records self) (start self) (Some counter).

End Event.

(** ** The store *)

Inductive Stmt : Type :=
| InsertProfile (name : string) (comment : option string)
| InsertEvent (profile_id : Z) (state : string) (started ended : string)
    (records : option Z) (comment : option string)
| UpdateProfileEnded (id : Z).

Record Connection := mkConnection {
  committed : list Stmt;   (* statements of committed transactions *)
  pending : list Stmt;     (* statements of the open transaction *)
  next_id : Z;             (* the serial of profiler.profiles *)
  closed : bool;
  fault_plan : nat → bool; (* the k-th execute or commit raises *)
  calls : nat;             (* number of execute and commit calls so far *)
}.

Module Db.

Definition cursor : M Connection unit :=
  λ c, if closed c then (Raise InterfaceError, c) else (Ok tt, c).

Definition cursor_close : M Connection unit := ret tt.

(** [cursor.execute(sql, args)]; the result is the value a RETURNING
    clause gives, if any. *)
Definition execute (s : Stmt) : M Connection (option Z) :=
  λ c,
    if closed c then (Raise InterfaceError, c)
    else if fault_plan c (calls c) then
      (Raise DatabaseError,
       mkConnection (committed c) (pending c) (next_id c) (closed c)
         (fault_plan c) (S (calls c)))
    else
      match s with
      | InsertProfile _ _ =>
          (Ok (Some (next_id c)),
           mkConnection (committed c) (pending c ++ [s]) (next_id c + 1)
             (closed c) (fault_plan c) (S (calls c)))
      | _ =>
          (Ok None,
           mkConnection (committed c) (pending c ++ [s]) (next_id c)
             (closed c) (fault_plan c) (S (calls c)))
      end.

(** [cursor.fetchone()[0]] *)
Definition fetchone_0 (r : option Z) : M Connection Z :=
  match r with
  | Some v => ret v
  | None => raise TypeError
  end.

Definition commit : M Connection unit :=
  λ c,
    if closed c then (Raise InterfaceError, c)
    else if fault_plan c (calls c) then
      (Raise DatabaseError,
       mkConnection (committed c) (pending c) (next_id c) (closed c)
         (fault_plan c) (S (calls c)))
    else
      (Ok tt,
       mkConnection (committed c ++ pending c) [] (next_id c) (closed c)
         (fault_plan c) (S (calls c))).

Definition close : M Connection unit :=
  λ c, (Ok tt,
        mkConnection (committed c) [] (next_id c) true
          (fault_plan c) (calls c)).

End Db.

(** ** class Profiler *)

Record Profiler := mkProfiler {
  name : string;
  db : Connection;
  pid : Z;
  events : list Event.t;
  start : Z;
  offset : Z;
  created : Z;
}.

Record World := mkWorld {
  self : Profiler;
  clock : Clock;
}.

Definition with_events (evs : list Event.t) (w : World) : World :=
  let p := self w in
  mkWorld (mkProfiler (name p) (db p) (pid p) evs (start p) (offset p)
             (created p)) (clock w).

Definition with_db (c : Connection) (w : World) : World :=
  let p := self w in
  mkWorld (mkProfiler (name p) c (pid p) (events p) (start p) (offset p)
             (created p)) (clock w).

(** [self.events = evs] *)
Definition set_events (evs : list Event.t) : M World unit :=
  modify (with_events evs).

Definition on_clock {A} (m : M Clock A) : M World A :=
  λ w, let (r, c) := m (clock w) in (r, mkWorld (self w) c).

(** a call on [self.db] *)
Definition on_db {A} (m : M Connection A) : M World A :=
  λ w, let (r, c) := m (db (self w)) in (r, with_db c w).

(** [self.events[i]] *)
Definition event_at (i : Z) : M World Event.t :=
  evs <- gets (events ∘ self) ;;
  getitem evs i.

(** [self.events[i].set_end(counter)]: the Event at index [i] is mutated
    in place. *)
Definition set_end_at (i : Z) (counter : Z) : M World unit :=
  evs <- gets (events ∘ self) ;;
  match py_index evs i with
  | Some j => set_events (alter (λ e, Event.set_end e counter) j evs)
  | None => raise IndexError
  end.

Definition append (state : string) (comment : option string)
    (records : option Z) : M World unit :=
  e <- on_clock (Event.__init__ state comment records) ;;
  evs <- gets (events ∘ self) ;;
  set_events (evs ++ [e]) ;;
  evs <- gets (events ∘ self) ;;
  if decide (1 < length evs) then
    last_ev <- event_at (-1) ;;
    set_end_at (-1) (Event.start last_ev)
  else ret tt.

Section Flush.

(** [datetime.strftime(d, '%Y-%d-%m %H:%M:%S.%f')] *)
Variable strftime : Z → string.

(** [self.created + datetime.timedelta(seconds=t - self.offset)] *)
Definition wall_clock (p : Profiler) (t : Z) : Z :=
  (created p + (t - offset p))%Z.

(** one turn of the loop of [flush] *)
Definition flush_event (i : nat) : M World unit :=
  next_ev <- event_at (Z.of_nat i + 1) ;;
  set_end_at (Z.of_nat i) (Event.start next_ev) ;;
  ev <- event_at (Z.of_nat i) ;;
  p <- gets self ;;
  let started := strftime (wall_clock p (Event.start ev)) in
  ev <- event_at (Z.of_nat i) ;;
  ended <- match Event.end_ ev with
           | Some t => ret (strftime (wall_clock p t))
           | None => raise TypeError
           end ;;
  ev <- event_at (Z.of_nat i) ;;
  on_db (Db.execute
           (InsertEvent (pid p) (Event.state ev) started ended
              (Event.records ev) (Event.comment ev))) ;;
  ret tt.

Definition flush : M World unit :=
  evs <- gets (events ∘ self) ;;
  if decide (evs ≠ []) then
    last_ev <- event_at (-1) ;;
    let prev_state := Event.state last_ev in
    last_ev <- event_at (-1) ;;
    let prev_comment := Event.comment last_ev in
    last_ev <- event_at (-1) ;;
    let prev_records := Event.records last_ev in
    append "Profiler Housekeeping" None None ;;
    on_db Db.cursor ;;
    evs <- gets (events ∘ self) ;;
    for_each (seq 0 (length evs - 1)) flush_event ;;
    evs <- gets (events ∘ self) ;;
    set_events (slice_last evs) ;;
    on_db Db.commit ;;
    on_db Db.cursor_close ;;
    append prev_state prev_comment prev_records
  else ret tt.

(** [__exit__] returns [None]: an exception of the enclosed block is
    not suppressed. *)
Definition __exit__ (exc : option exn) : M World unit :=
  flush ;;
  on_db Db.cursor ;;
  p <- gets self ;;
  on_db (Db.execute (UpdateProfileEnded (pid p))) ;;
  on_db Db.commit ;;
  on_db Db.cursor_close ;;
  on_db Db.close.

(** [with profiler as p: body] once the Profiler is constructed *)
Definition with_profiler {A} (body : M World A) : M World A :=
  λ w,
    match body w with
    | (Ok a, w1) =>
        match __exit__ None w1 with
        | (Ok _, w2) => (Ok a, w2)
        | (Raise e, w2) => (Raise e, w2)
        end
    | (Raise e, w1) =>
        match __exit__ (Some e) w1 with
        | (Ok _, w2) => (Raise e, w2)
        | (Raise e', w2) => (Raise e', w2)
        end
    end.

(** *** Construction *)

(** [psycopg2.connect(user=, dbname=, password=, host=)] *)
Variable psycopg2_connect : string → string → string → string →
                            result Connection.

(** [kwargs[key]] *)
Definition kwarg (kwargs : gmap string string) (key : string) :
    result string :=
  match kwargs !! key with
  | Some v => Ok v
  | None => Raise (KeyError key)
  end.

Definition connect_to_db (kwargs : gmap string string) :
    result Connection :=
  match kwarg kwargs "user" with
  | Raise e => Raise e
  | Ok user =>
      match kwarg kwargs "password" with
      | Raise e => Raise e
      | Ok password =>
          let dbname := default "quanta" (kwargs !! "dbname") in
          let host := default "localhost" (kwargs !! "host") in
          psycopg2_connect user dbname password host
      end
  end.

Definition create_new_profile (name : string) (comment : option string) :
    M Connection Z :=
  Db.cursor ;;
  r <- Db.execute (InsertProfile name comment) ;;
  new_row <- Db.fetchone_0 r ;;
  Db.commit ;;
  Db.cursor_close ;;
  ret new_row.

(** [Profiler(name, **kwargs)]: the new object, or the exception that
    leaves none. *)
Definition __init__ (name : string) (kwargs : gmap string string) :
    M Clock Profiler :=
  λ c,
    match connect_to_db kwargs with
    | Raise e => (Raise e, c)
    | Ok conn =>
        match create_new_profile name (kwargs !! "comment") conn with
        | (Raise e, _) => (Raise e, c)
        | (Ok new_row, conn') =>
            (start <- datetime_now ;;
             offset <- perf_counter ;;
             created <- datetime_now ;;
             ret (mkProfiler name conn' new_row [] start offset created)) c
        end
    end.

(** *** What the methods compute, in closed form *)

(** the next reading of [time.perf_counter()] *)
Definition now (w : World) : Z := perf (clock w) (perf_reads (clock w)).

Definition ticked (w : World) : World :=
  let c := clock w in
  mkWorld (self w)
    (mkClock (perf c) (S (perf_reads c)) (wall c) (wall_reads c)).

(** the Event [append] leaves at the end of the buffer *)
Definition new_event (state : string) (comment : option string)
    (records : option Z) (w : World) : Event.t :=
  Event.mk state comment records (now w)
    (if decide (events (self w) = []) then None else Some (now w)).

Definition appended (state : string) (comment : option string)
    (records : option Z) (w : World) : World :=
  with_events (events (self w) ++ [new_event state comment records w])
    (ticked w).

Definition housekeeping (w : World) : Event.t :=
  new_event "Profiler Housekeeping" None None w.

(** every Event but the last ends where its successor starts *)
Fixpoint close_ends (l : list Event.t) : list Event.t :=
  match l with
  | e :: (e' :: _) as l' => Event.set_end e (Event.start e') :: close_ends l'
  | _ => l
  end.

(** the same for the first [k] Events only *)
Fixpoint close_prefix (k : nat) (l : list Event.t) : list Event.t :=
  match k, l with
  | S k', e :: (e' :: _) as l' =>
      Event.set_end e (Event.start e') :: close_prefix k' l'
  | _, _ => l
  end.

Definition row_of (p : Profiler) (e : Event.t) (t_end : Z) : Stmt :=
  InsertEvent (pid p) (Event.state e)
    (strftime (wall_clock p (Event.start e)))
    (strftime (wall_clock p t_end))
    (Event.records e) (Event.comment e).

(** one row for every Event that has a successor *)
Fixpoint rows (p : Profiler) (l : list Event.t) : list Stmt :=
  match l with
  | e :: (e' :: _) as l' => row_of p e (Event.start e') :: rows p l'
  | _ => []
  end.

(** the connection after the statements [ss] were executed *)
Definition executed (ss : list Stmt) (c : Connection) : Connection :=
  mkConnection (committed c) (pending c ++ ss) (next_id c) (closed c)
    (fault_plan c) (calls c + length ss).

Definition failed_call (c : Connection) : Connection :=
  mkConnection (committed c) (pending c) (next_id c) (closed c)
    (fault_plan c) (S (calls c)).

Definition committed_all (c : Connection) : Connection :=
  mkConnection (committed c ++ pending c) [] (next_id c) (closed c)
    (fault_plan c) (S (calls c)).

Definition released (c : Connection) : Connection :=
  mkConnection (committed c) [] (next_id c) true (fault_plan c) (calls c).

(** the world when [flush] reaches its loop *)
Definition flush_begun (w : World) : World :=
  appended "Profiler Housekeeping" None None w.

(** the world after a [flush] whose store calls all succeed *)
Definition flushed (w : World) : World :=
  match last (events (self w)) with
  | None => w
  | Some e =>
      let w1 := flush_begun w in
      let c := committed_all
                 (executed (rows (self w) (events (self w1)))
                    (db (self w))) in
      appended (Event.state e) (Event.comment e) (Event.records e)
        (with_db c (with_events [housekeeping w] w1))
  end.

(** the ways a [flush] can go *)
Inductive flush_outcome (w : World) : result unit * World → Prop :=
| flush_nothing :
    events (self w) = [] →
    flush_outcome w (Ok tt, w)
| flush_no_connection :
    events (self w) ≠ [] →
    closed (db (self w)) = true →
    flush_outcome w (Raise InterfaceError, flush_begun w)
| flush_insert_failed (j : nat) :
    j < length (events (self w)) →
    closed (db (self w)) = false →
    (∀ i, i < j →
          fault_plan (db (self w)) (calls (db (self w)) + i) = false) →
    fault_plan (db (self w)) (calls (db (self w)) + j) = true →
    flush_outcome w
      (Raise DatabaseError,
       with_db (failed_call
                  (executed
                     (rows (self w)
                        (take (S j) (events (self (flush_begun w)))))
                     (db (self w))))
         (with_events (close_prefix (S j) (events (self (flush_begun w))))
            (flush_begun w)))
| flush_commit_failed :
    events (self w) ≠ [] →
    closed (db (self w)) = false →
    (∀ i, i < length (events (self w)) →
          fault_plan (db (self w)) (calls (db (self w)) + i) = false) →
    fault_plan (db (self w))
      (calls (db (self w)) + length (events (self w))) = true →
    flush_outcome w
      (Raise DatabaseError,
       with_db (failed_call
                  (executed (rows (self w) (events (self (flush_begun w))))
                     (db (self w))))
         (with_events [housekeeping w] (flush_begun w)))
| flush_done :
    events (self w) ≠ [] →
    closed (db (self w)) = false →
    (∀ i, i ≤ length (events (self w)) →
          fault_plan (db (self w)) (calls (db (self w)) + i) = false) →
    flush_outcome w (Ok tt, flushed w).

(** the store accepts every call *)
Definition healthy (c : Connection) : Prop :=
  closed c = false ∧ ∀ i, fault_plan c i = false.

(** [time.perf_counter()] never goes back *)
Definition monotonic (c : Clock) : Prop :=
  ∀ n, (perf c n ≤ perf c (S n))%Z.

(** the starts of the buffered Events, then the next clock reading *)
Definition timeline (w : World) : list Z :=
  (Event.start <$> events (self w)) ++ [now w].

Definition ends_after_starts (l : list Event.t) : Prop :=
  Forall (λ e, ∀ t, Event.end_ e = Some t → (Event.start e ≤ t)%Z) l.

(** what every buffer built under a clock that never goes back has *)
Definition in_order (w : World) : Prop :=
  monotonic (clock w) ∧
  StronglySorted Z.le (timeline w) ∧
  ends_after_starts (events (self w)).

(** *** Callers *)

Inductive Call : Type :=
| CallAppend (state : string) (comment : option string)
    (records : option Z)
| CallFlush.

Definition call (c : Call) : M World unit :=
  match c with
  | CallAppend state comment records => append state comment records
  | CallFlush => flush
  end.

(** The world after a caller made the calls [cs] in order, going on
    after a call that raised. *)
Definition run_calls (cs : list Call) (w : World) : World :=
  foldl (λ w c, (call c w).2) w cs.

(** *** The specification's statements, for comparison with the code *)

(** [flush] on N ≥ 1 Events persists N rows, the housekeeping row among
    them, and leaves the one Event that resumes the active state. *)
Definition stated_flush (w : World) : Prop :=
  let w' := (flush w).2 in
  ∃ new_rows e e',
    committed (db (self w')) = committed (db (self w)) ++ new_rows ∧
    length new_rows = length (events (self w)) ∧
    (∃ i s t r c,
       InsertEvent i "Profiler Housekeeping" s t r c ∈ new_rows) ∧
    last (events (self w)) = Some e ∧
    events (self w') = [e'] ∧
    Event.state e' = Event.state e ∧
    Event.comment e' = Event.comment e ∧
    Event.records e' = Event.records e.

(** A failing store write leaves the buffer as it was. *)
Definition stated_flush_failure (w : World) : Prop :=
  ∀ e, (flush w).1 = Raise e →
       committed (db (self (flush w).2)) = committed (db (self w)) ∧
       events (self (flush w).2) = events (self w).

(** The end-to-end scenario, from a new Profiler [w]. *)
Definition stated_scenario (w : World) : Prop :=
  let w' := run_calls [CallAppend "Run #0" None (Some 100%Z);
                       CallAppend "Run #1" None (Some 200%Z);
                       CallFlush] w in
  ∃ new_rows ev,
    committed (db (self w')) = committed (db (self w)) ++ new_rows ∧
    length new_rows = 2 ∧
    (∃ i s t c, InsertEvent i "Run #0" s t (Some 100%Z) c ∈ new_rows) ∧
    (∃ i s t r c,
       InsertEvent i "Profiler Housekeeping" s t r c ∈ new_rows) ∧
    events (self w') = [ev] ∧
    Event.state ev = "Run #1".

(** A second [flush] right after a first persists one more row, the
    buffer between the two holding one Event. *)
Definition stated_second_flush (w : World) : Prop :=
  let w1 := (flush w).2 in
  let w2 := (flush w1).2 in
  length (events (self w1)) = 1 ∧
  ∃ row, committed (db (self w2)) = committed (db (self w1)) ++ [row].

(** The connection is released on every exit path. *)
Definition stated_exit (w : World) : Prop :=
  ∀ exc, closed (db (self (__exit__ exc w).2)) = true.

End Flush.

(** * What a session leaves behind *)

(** [__enter__] returns [self]. *)
Definition __enter__ : M World Profiler := gets self.

(** a computation that touches nothing but [self.db] *)
Definition db_only {A} (m : M World A) : Prop :=
  ∀ w, ∃ c, (m w).2 = with_db c w.

(** the fields [__init__] sets and no method assigns again *)
Definition identity (w : World) : string * Z * Z * Z * Z :=
  let p := self w in (name p, pid p, start p, offset p, created p).

(** the started and ended columns of a row of profiler.events *)
Definition interval (s : Stmt) : option (string * string) :=
  match s with
  | InsertEvent _ _ started ended _ _ => Some (started, ended)
  | _ => None
  end.

(** what a caller of [append] passes: state, comment, records *)
Definition entry_of_event (e : Event.t) :
    string * option string * option Z :=
  (Event.state e, Event.comment e, Event.records e).

Definition entry_of_row (s : Stmt) :
    option (string * option string * option Z) :=
  match s with
  | InsertEvent _ state _ _ records comment => Some (state, comment, records)
  | _ => None
  end.

(** The entries a sequence of calls gives rise to, after the entries
    [acc]: a [flush] of a non-empty buffer adds the housekeeping entry
    and enters the active state again. *)
Fixpoint entered (acc : list (string * option string * option Z))
    (cs : list Call) : list (string * option string * option Z) :=
  match cs with
  | [] => acc
  | CallAppend state comment records :: cs' =>
      entered (acc ++ [(state, comment, records)]) cs'
  | CallFlush :: cs' =>
      entered (match last acc with
               | None => acc
               | Some x => acc ++ [("Profiler Housekeeping", None, None); x]
               end) cs'
  end.

(** a chain of intervals from the mark [x]: each starts where the one
    before ends; the result is the mark it ends at *)
Fixpoint chain (x : string) (l : list (string * string)) : option string :=
  match l with
  | [] => Some x
  | (a, b) :: l' => if decide (a = x) then chain b l' else None
  end.


(** * The script at the end of the module *)

(** [time.sleep(j)]: time passes, which the readings of the clocks
    show; no state of the program changes. *)
Definition sleep (j : Z) : M World unit := ret tt.

(** The body of the [with] block, for [range(n)] and the list [js] of
    seconds:
    [for i in range(n): for j in js: p.append(...); time.sleep(j)]
    and then [p.flush()]. *)
Definition script_body (strftime : Z → string) (n : nat) (js : list Z) :
    M World unit :=
  for_each (seq 0 n) (λ i,
    for_each js (λ j,
      append ("Run #" +:+ pretty i)
        (Some ("Will now sleep for " +:+ pretty j +:+ "s"))
        (Some (100 * j)%Z) ;;
      sleep j) ;;
    flush strftime).

(** the script: [with Profiler("Test", ...) as p:] around the body for
    [range(10)] and [[1, 2, 5, 10]] *)
Definition script (strftime : Z → string)
    (connect : string → string → string → string → result Connection) :
    M Clock unit :=
  λ c,
    match __init__ connect "Test"
            (list_to_map [("comment", "Sunday afternoon"); ("user", "tim");
                          ("dbname", "quanta"); ("host", "crowley");
                          ("password", "swordfish123")]) c with
    | (Raise e, c') => (Raise e, c')
    | (Ok p, c') =>
        let (r, w) :=
          with_profiler strftime
            (__enter__ ;; script_body strftime 10 [1; 2; 5; 10]%Z)
            (mkWorld p c') in
        (r, clock w)
    end.



(** * A sample session *)

Definition sample_clock : Clock :=
  mkClock (λ n, 10 * Z.of_nat n)%Z 0 (λ n, 1000 + Z.of_nat n)%Z 0.

Definition sample_store : Connection :=
  mkConnection [] [] 1 false (λ _, false) 0.

Definition sample_connect (user dbname password host : string) :
    result Connection :=
  Ok sample_store.

Definition sample_kwargs : gmap string string :=
  list_to_map [("comment", "Sunday afternoon"); ("user", "tim");
               ("dbname", "quanta"); ("host", "crowley");
               ("password", "swordfish123")].

Definition sample_strftime (d : Z) : string := pretty d.

(** the world after [Profiler("Test", **sample_kwargs)] *)
Definition sample_world : World :=
  mkWorld
    (mkProfiler "Test"
       (mkConnection [InsertProfile "Test" (Some "Sunday afternoon")] [] 2
          false (λ _, false) 2)
       1 [] 1000 0 1001)
    (mkClock (perf sample_clock) 1 (wall sample_clock) 2).

(** one state entered *)
Definition sample_first : World :=
  run_calls sample_strftime [CallAppend "Run #0" None (Some 100%Z)]
    sample_world.

(** two states entered, none flushed *)
Definition sample_running : World :=
  run_calls sample_strftime
    [CallAppend "Run #0" None (Some 100%Z);
     CallAppend "Run #1" None (Some 200%Z)] sample_world.

(** the world [w] with a store whose [k]-th call from now raises *)
Definition failing_at (k : nat) (w : World) : World :=
  let c := db (self w) in
  with_db (mkConnection (committed c) (pending c) (next_id c) (closed c)
             (λ i, bool_decide (i = calls c + k)) (calls c)) w.

(** a store that refuses the first statement it is given *)
Definition sample_refusing_connect (user dbname password host : string) :
    result Connection :=
  Ok (mkConnection [] [] 1 false (λ i, bool_decide (i = 0)) 0).

(** a store that cannot be reached *)
Definition sample_unreachable_connect
    (user dbname password host : string) : result Connection :=
  Raise DatabaseError.

(** the calls of the end-to-end scenario *)
Definition sample_calls : list Call :=
  [CallAppend "Run #0" None (Some 100%Z);
   CallAppend "Run #1" None (Some 200%Z);
   CallFlush].

(** * Properties *)

Section Properties.

Variable strftime : Z → string.

(** ** Running the monad *)

Lemma bind_ok {S A B} (m : M S A) (k : A → M S B) s a s' :
  m s = (Ok a, s') → bind m k s = k a s'.
Proof. intros H. unfold bind. by rewrite H. Qed.

Lemma bind_raise {S A B} (m : M S A) (k : A → M S B) s e s' :
  m s = (Raise e, s') → bind m k s = (Raise e, s').
Proof. intros H. unfold bind. by rewrite H. Qed.

(** ** Python indices *)

Lemma py_index_nat {A} (l : list A) (i : nat) :
  i < length l → py_index l (Z.of_nat i) = Some i.
Proof.
  intros Hi. unfold py_index.
  destruct (Z.ltb_spec (Z.of_nat i) 0); [lia|].
  destruct (Z.leb_spec 0 (Z.of_nat i)); [|lia].
  destruct (Z.ltb_spec (Z.of_nat i) (Z.of_nat (length l))); [|lia].
  simpl. by rewrite Nat2Z.id.
Qed.

Lemma py_index_last {A} (l : list A) :
  l ≠ [] → py_index l (-1) = Some (length l - 1).
Proof.
  intros Hl. unfold py_index.
  assert (0 < length l) by (destruct l; [done | simpl; lia]).
  change (-1 <? 0)%Z with true. cbv iota.
  destruct (Z.leb_spec 0 (-1 + Z.of_nat (length l))); [|lia].
  destruct (Z.ltb_spec (-1 + Z.of_nat (length l)) (Z.of_nat (length l)));
    [|lia].
  simpl. f_equal. lia.
Qed.

(** ** The primitive steps *)

Lemma event_at_nat (w : World) (i : nat) (e : Event.t) :
  events (self w) !! i = Some e →
  event_at (Z.of_nat i) w = (Ok e, w).
Proof.
  intros He. unfold event_at, bind, gets, getitem. simpl.
  rewrite py_index_nat by (by eapply lookup_lt_Some).
  simpl. by rewrite He.
Qed.

Lemma event_at_succ (w : World) (i : nat) (e : Event.t) :
  events (self w) !! S i = Some e →
  event_at (Z.of_nat i + 1) w = (Ok e, w).
Proof.
  intros He. replace (Z.of_nat i + 1)%Z with (Z.of_nat (S i)) by lia.
  by apply event_at_nat.
Qed.

Lemma event_at_last (w : World) (e : Event.t) :
  last (events (self w)) = Some e →
  event_at (-1) w = (Ok e, w).
Proof.
  intros He. unfold event_at, bind, gets, getitem. simpl.
  assert (events (self w) ≠ []) as Hne by (intros E; by rewrite E in He).
  rewrite py_index_last by done. simpl.
  rewrite last_lookup in He.
  replace (length (events (self w)) - 1) with
    (pred (length (events (self w)))) by lia.
  by rewrite He.
Qed.

Lemma set_end_at_nat (w : World) (i : nat) (t : Z) :
  i < length (events (self w)) →
  set_end_at (Z.of_nat i) t w =
  (Ok tt, with_events
            (alter (λ e, Event.set_end e t) i (events (self w))) w).
Proof.
  intros Hi. unfold set_end_at, bind, gets. simpl.
  by rewrite py_index_nat.
Qed.

Lemma set_end_at_last (w : World) (t : Z) :
  events (self w) ≠ [] →
  set_end_at (-1) t w =
  (Ok tt, with_events
            (alter (λ e, Event.set_end e t)
               (length (events (self w)) - 1) (events (self w))) w).
Proof.
  intros Hne. unfold set_end_at, bind, gets. simpl.
  by rewrite py_index_last.
Qed.

(** ** [append] *)

Lemma append_run (state : string) (comment : option string)
    (records : option Z) (w : World) :
  append state comment records w =
  (Ok tt, appended state comment records w).
Proof.
  destruct w as [[n d p evs st off cr] [pf pr wl wr]].
  unfold append, appended, new_event, now, ticked, with_events.
  cbn -[app length alter last event_at set_end_at].
  rewrite length_app. cbn -[app alter last].
  destruct (decide (evs = [])) as [->|Hne]; [done|].
  assert (1 < length evs + 1) as Hlen by (destruct evs; [done | simpl; lia]).
  rewrite decide_True by done.
  erewrite bind_ok.
  2:{ apply event_at_last. cbn -[app]. by rewrite last_snoc. }
  rewrite set_end_at_last by (cbn -[app]; by destruct evs).
  cbn -[app alter]. rewrite length_app. cbn -[app alter].
  replace (length evs + 1 - 1) with (length evs + 0) by lia.
  by rewrite alter_app_r.
Qed.

(** ** Worlds *)

Lemma with_events_id (w : World) : with_events (events (self w)) w = w.
Proof. by destruct w as [[] ?]. Qed.

Lemma with_db_id (w : World) : with_db (db (self w)) w = w.
Proof. by destruct w as [[] ?]. Qed.

Lemma events_with_events (l : list Event.t) (w : World) :
  events (self (with_events l w)) = l.
Proof. done. Qed.

Lemma events_with_db (c : Connection) (w : World) :
  events (self (with_db c w)) = events (self w).
Proof. done. Qed.

Lemma db_with_db (c : Connection) (w : World) :
  db (self (with_db c w)) = c.
Proof. done. Qed.

Lemma db_with_events (l : list Event.t) (w : World) :
  db (self (with_events l w)) = db (self w).
Proof. done. Qed.

Lemma with_events_twice (l l' : list Event.t) (w : World) :
  with_events l (with_events l' w) = with_events l w.
Proof. done. Qed.

Lemma with_db_twice (c c' : Connection) (w : World) :
  with_db c (with_db c' w) = with_db c w.
Proof. done. Qed.

Lemma with_events_with_db (l : list Event.t) (c : Connection) (w : World) :
  with_events l (with_db c w) = with_db c (with_events l w).
Proof. done. Qed.

Create Rewrite HintDb world.

#[local] Hint Rewrite events_with_events events_with_db db_with_db db_with_events
  with_events_twice with_db_twice with_events_with_db : world.

Lemma executed_nil (c : Connection) : executed [] c = c.
Proof.
  destruct c. unfold executed. simpl. rewrite app_nil_r. f_equal. lia.
Qed.

Lemma executed_cons (s : Stmt) (ss : list Stmt) (c : Connection) :
  executed ss (executed [s] c) = executed (s :: ss) c.
Proof.
  destruct c. unfold executed. simpl. rewrite <- app_assoc. simpl.
  f_equal. lia.
Qed.

Lemma rows_cons (p : Profiler) (e e' : Event.t) (l : list Event.t) :
  rows strftime p (e :: e' :: l) =
  row_of strftime p e (Event.start e') :: rows strftime p (e' :: l).
Proof. done. Qed.

Lemma close_ends_cons (e e' : Event.t) (l : list Event.t) :
  close_ends (e :: e' :: l) =
  Event.set_end e (Event.start e') :: close_ends (e' :: l).
Proof. done. Qed.

Lemma close_prefix_cons (k : nat) (e e' : Event.t) (l : list Event.t) :
  close_prefix (S k) (e :: e' :: l) =
  Event.set_end e (Event.start e') :: close_prefix k (e' :: l).
Proof. done. Qed.

Lemma rows_length (p : Profiler) (l : list Event.t) :
  length (rows strftime p l) = length l - 1.
Proof.
  induction l as [|e l IH]; [done|]. destruct l as [|e' l]; [done|].
  rewrite rows_cons. simpl in *. rewrite IH. lia.
Qed.

Lemma rows_frame (p p' : Profiler) (l : list Event.t) :
  pid p = pid p' → offset p = offset p' → created p = created p' →
  rows strftime p l = rows strftime p' l.
Proof.
  intros Hpid Hoff Hcr. induction l as [|e l IH]; [done|].
  destruct l as [|e' l]; [done|].
  rewrite !rows_cons, IH. unfold row_of, wall_clock.
  by rewrite Hpid, Hoff, Hcr.
Qed.

(** ** The loop of [flush] *)

Lemma flush_event_ok (w : World) (pre l : list Event.t) (e e' : Event.t) :
  events (self w) = pre ++ e :: e' :: l →
  closed (db (self w)) = false →
  fault_plan (db (self w)) (calls (db (self w))) = false →
  flush_event strftime (length pre) w =
  (Ok tt,
   with_db (executed [row_of strftime (self w) e (Event.start e')]
              (db (self w)))
     (with_events
        (pre ++ Event.set_end e (Event.start e') :: e' :: l) w)).
Proof.
  intros Hevs Hopen Hplan.
  assert (length pre < length (events (self w))) as Hlt
    by (rewrite Hevs, length_app; simpl; lia).
  assert (events (self w) !! S (length pre) = Some e') as Hnext.
  { rewrite Hevs. by rewrite (lookup_app_r pre) by lia;
      replace (S (length pre) - length pre) with 1 by lia. }
  assert (alter (λ x, Event.set_end x (Event.start e')) (length pre)
            (events (self w)) =
          pre ++ Event.set_end e (Event.start e') :: e' :: l) as Halter.
  { rewrite Hevs.
    replace (length pre) with (length pre + 0) at 1 by lia.
    by rewrite alter_app_r. }
  unfold flush_event.
  erewrite bind_ok by (by apply event_at_succ).
  erewrite bind_ok by (by apply set_end_at_nat).
  rewrite Halter.
  assert (events (self (with_events
            (pre ++ Event.set_end e (Event.start e') :: e' :: l) w))
          !! length pre = Some (Event.set_end e (Event.start e'))) as Hcur.
  { cbn -[app lookup]. rewrite lookup_app_r by lia.
    by rewrite Nat.sub_diag. }
  erewrite bind_ok by (by apply event_at_nat).
  unfold bind at 1, gets at 1.
  erewrite bind_ok by (by apply event_at_nat).
  cbn -[app event_at on_db bind].
  unfold bind at 1, ret at 1.
  erewrite bind_ok by (by apply event_at_nat).
  destruct w as [[n d p evs st off cr] ck].
  cbn -[app] in *. unfold bind, on_db, Db.execute, ret.
  unfold with_db, executed, row_of, wall_clock.
  cbn -[app]. rewrite Hplan, !Hopen.
  repeat f_equal. lia.
Qed.

Lemma flush_event_fail (w : World) (pre l : list Event.t)
    (e e' : Event.t) :
  events (self w) = pre ++ e :: e' :: l →
  closed (db (self w)) = false →
  fault_plan (db (self w)) (calls (db (self w))) = true →
  flush_event strftime (length pre) w =
  (Raise DatabaseError,
   with_db (failed_call (db (self w)))
     (with_events
        (pre ++ Event.set_end e (Event.start e') :: e' :: l) w)).
Proof.
  intros Hevs Hopen Hplan.
  assert (length pre < length (events (self w))) as Hlt
    by (rewrite Hevs, length_app; simpl; lia).
  assert (events (self w) !! S (length pre) = Some e') as Hnext.
  { rewrite Hevs. by rewrite (lookup_app_r pre) by lia;
      replace (S (length pre) - length pre) with 1 by lia. }
  assert (alter (λ x, Event.set_end x (Event.start e')) (length pre)
            (events (self w)) =
          pre ++ Event.set_end e (Event.start e') :: e' :: l) as Halter.
  { rewrite Hevs.
    replace (length pre) with (length pre + 0) at 1 by lia.
    by rewrite alter_app_r. }
  unfold flush_event.
  erewrite bind_ok by (by apply event_at_succ).
  erewrite bind_ok by (by apply set_end_at_nat).
  rewrite Halter.
  assert (events (self (with_events
            (pre ++ Event.set_end e (Event.start e') :: e' :: l) w))
          !! length pre = Some (Event.set_end e (Event.start e'))) as Hcur.
  { cbn -[app lookup]. rewrite lookup_app_r by lia.
    by rewrite Nat.sub_diag. }
  erewrite bind_ok by (by apply event_at_nat).
  unfold bind at 1, gets at 1.
  erewrite bind_ok by (by apply event_at_nat).
  cbn -[app event_at on_db bind].
  unfold bind at 1, ret at 1.
  erewrite bind_ok by (by apply event_at_nat).
  destruct w as [[n d p evs st off cr] ck].
  cbn -[app] in *. unfold bind, on_db, Db.execute, ret.
  unfold with_db, with_events, failed_call.
  cbn -[app]. by rewrite Hplan, !Hopen.
Qed.

Lemma flush_loop_ok (l : list Event.t) :
  ∀ (pre : list Event.t) (w : World),
    events (self w) = pre ++ l →
    closed (db (self w)) = false →
    (∀ i, i < length l - 1 →
          fault_plan (db (self w)) (calls (db (self w)) + i) = false) →
    for_each (seq (length pre) (length l - 1)) (flush_event strftime) w =
    (Ok tt,
     with_db (executed (rows strftime (self w) l) (db (self w)))
       (with_events (pre ++ close_ends l) w)).
Proof.
  induction l as [|e l IH]; intros pre w Hevs Hopen Hplan.
  { simpl. unfold ret. rewrite executed_nil, <- Hevs.
    by rewrite with_events_id, with_db_id. }
  destruct l as [|e' l].
  { simpl. unfold ret. rewrite executed_nil, <- Hevs.
    by rewrite with_events_id, with_db_id. }
  replace (length (e :: e' :: l) - 1) with (S (length (e' :: l) - 1))
    by (simpl; lia).
  cbn [seq for_each].
  erewrite bind_ok.
  2:{ apply flush_event_ok; [done..|].
      rewrite <- (Hplan 0) by (simpl; lia). f_equal. lia. }
  replace (S (length pre)) with
    (length (pre ++ [Event.set_end e (Event.start e')]))
    by (rewrite length_app; simpl; lia).
  rewrite IH.
  - destruct w as [[n d p evs st off cr] ck].
    unfold with_db, with_events. cbn -[app executed rows close_ends].
    rewrite (rows_frame _ (mkProfiler n d p evs st off cr)) by done.
    rewrite executed_cons, <- app_assoc. done.
  - destruct w as [[n d p evs st off cr] ck].
    cbn -[app]. by rewrite <- app_assoc.
  - by destruct w as [[n d p evs st off cr] ck].
  - intros i Hi. destruct w as [[n d p evs st off cr] ck].
    cbn -[app] in *.
    rewrite <- (Hplan (S i)) by lia. f_equal. lia.
Qed.

Lemma flush_loop_fail (l : list Event.t) :
  ∀ (pre : list Event.t) (w : World) (j : nat),
    events (self w) = pre ++ l →
    closed (db (self w)) = false →
    j < length l - 1 →
    (∀ i, i < j →
          fault_plan (db (self w)) (calls (db (self w)) + i) = false) →
    fault_plan (db (self w)) (calls (db (self w)) + j) = true →
    for_each (seq (length pre) (length l - 1)) (flush_event strftime) w =
    (Raise DatabaseError,
     with_db (failed_call
                (executed (rows strftime (self w) (take (S j) l))
                   (db (self w))))
       (with_events (pre ++ close_prefix (S j) l) w)).
Proof.
  induction l as [|e l IH]; intros pre w j Hevs Hopen Hj Hplan Hfault.
  { simpl in Hj. lia. }
  destruct l as [|e' l].
  { simpl in Hj. lia. }
  replace (length (e :: e' :: l) - 1) with (S (length (e' :: l) - 1))
    by (simpl; lia).
  cbn [seq for_each].
  destruct j as [|j].
  - erewrite bind_raise.
    2:{ apply flush_event_fail; [done..|].
        rewrite <- Hfault. f_equal. lia. }
    cbn [take rows]. rewrite executed_nil.
    by destruct l.
  - erewrite bind_ok.
    2:{ apply flush_event_ok; [done..|].
        rewrite <- (Hplan 0) by lia. f_equal. lia. }
    replace (S (length pre)) with
      (length (pre ++ [Event.set_end e (Event.start e')]))
      by (rewrite length_app; simpl; lia).
    rewrite (IH _ _ j).
    + destruct w as [[n d p evs st off cr] ck].
      unfold with_db, with_events.
      cbn -[app executed rows close_prefix take failed_call].
      rewrite (rows_frame _ (mkProfiler n d p evs st off cr)) by done.
      rewrite executed_cons, <- app_assoc.
      change (take (S (S j)) (e :: e' :: l)) with
        (e :: take (S j) (e' :: l)).
      by destruct l.
    + destruct w as [[n d p evs st off cr] ck].
      cbn -[app]. by rewrite <- app_assoc.
    + by destruct w as [[n d p evs st off cr] ck].
    + simpl in *. lia.
    + intros i Hi. destruct w as [[n d p evs st off cr] ck].
      cbn -[app] in *.
      rewrite <- (Hplan (S i)) by lia. f_equal. lia.
    + destruct w as [[n d p evs st off cr] ck].
      cbn -[app] in *.
      rewrite <- Hfault. f_equal. lia.
Qed.

(** ** [flush] *)

Lemma close_ends_snoc (l : list Event.t) (x : Event.t) :
  ∃ l', close_ends (l ++ [x]) = l' ++ [x] ∧ length l' = length l.
Proof.
  induction l as [|e l IH]; [by exists []|].
  destruct IH as (l' & Heq & Hlen).
  destruct l as [|e' l]; simpl app in *.
  - by exists [Event.set_end e (Event.start x)].
  - rewrite close_ends_cons, Heq.
    exists (Event.set_end e (Event.start e') :: l'). split; [done|].
    simpl in *. by rewrite Hlen.
Qed.

Lemma slice_last_snoc {A} (l : list A) (x : A) : slice_last (l ++ [x]) = [x].
Proof.
  unfold slice_last. rewrite length_app. simpl.
  replace (length l + 1 - 1) with (length l + 0) by lia.
  by rewrite drop_app_add.
Qed.

Lemma on_db_cursor (w : World) :
  closed (db (self w)) = false → on_db Db.cursor w = (Ok tt, w).
Proof.
  intros H. unfold on_db, Db.cursor. rewrite H. by rewrite with_db_id.
Qed.

Lemma on_db_cursor_closed (w : World) :
  closed (db (self w)) = true →
  on_db Db.cursor w = (Raise InterfaceError, w).
Proof.
  intros H. unfold on_db, Db.cursor. rewrite H. by rewrite with_db_id.
Qed.

Lemma on_db_cursor_close (w : World) :
  on_db Db.cursor_close w = (Ok tt, w).
Proof. unfold on_db, Db.cursor_close, ret. by rewrite with_db_id. Qed.

Lemma on_db_commit (w : World) :
  closed (db (self w)) = false →
  fault_plan (db (self w)) (calls (db (self w))) = false →
  on_db Db.commit w = (Ok tt, with_db (committed_all (db (self w))) w).
Proof.
  intros H1 H2. unfold on_db, Db.commit, committed_all.
  by rewrite H2, !H1.
Qed.

Lemma on_db_commit_fail (w : World) :
  closed (db (self w)) = false →
  fault_plan (db (self w)) (calls (db (self w))) = true →
  on_db Db.commit w =
  (Raise DatabaseError, with_db (failed_call (db (self w))) w).
Proof.
  intros H1 H2. unfold on_db, Db.commit, failed_call.
  by rewrite H2, !H1.
Qed.

Lemma flush_empty (w : World) :
  events (self w) = [] → flush strftime w = (Ok tt, w).
Proof.
  intros H. unfold flush, bind, gets. simpl. rewrite H.
  by rewrite decide_False by (by intros ?).
Qed.

(** [flush] up to its loop *)
Lemma flush_begin (w : World) (e : Event.t) :
  last (events (self w)) = Some e →
  flush strftime w =
  (on_db Db.cursor ;;
   evs <- gets (events ∘ self) ;;
   for_each (seq 0 (length evs - 1)) (flush_event strftime) ;;
   evs <- gets (events ∘ self) ;;
   set_events (slice_last evs) ;;
   on_db Db.commit ;;
   on_db Db.cursor_close ;;
   append (Event.state e) (Event.comment e) (Event.records e))
    (flush_begun w).
Proof.
  intros Hlast.
  assert (events (self w) ≠ []) as Hne by (intros E; by rewrite E in Hlast).
  unfold flush. unfold bind at 1, gets at 1. cbn [compose].
  rewrite decide_True by done.
  do 3 (erewrite bind_ok by (by apply event_at_last)).
  erewrite bind_ok by apply append_run. done.
Qed.

Lemma flush_begun_events (w : World) :
  events (self (flush_begun w)) = events (self w) ++ [housekeeping w].
Proof. done. Qed.

Lemma flush_begun_db (w : World) : db (self (flush_begun w)) = db (self w).
Proof. done. Qed.

(** the loop of [flush], run from the start of the buffer *)
Lemma flush_loop_begun_ok (w : World) :
  closed (db (self w)) = false →
  (∀ i, i < length (events (self w)) →
        fault_plan (db (self w)) (calls (db (self w)) + i) = false) →
  for_each (seq 0 (length (events (self (flush_begun w))) - 1))
    (flush_event strftime) (flush_begun w) =
  (Ok tt,
   with_db (executed (rows strftime (self w) (events (self (flush_begun w))))
              (db (self w)))
     (with_events (close_ends (events (self (flush_begun w))))
        (flush_begun w))).
Proof.
  intros Hopen Hplan.
  pose proof (flush_loop_ok (events (self (flush_begun w))) []
                (flush_begun w) eq_refl Hopen) as Hloop.
  cbn [length app] in Hloop. rewrite Hloop.
  - by rewrite (rows_frame _ (self w)).
  - intros i Hi. rewrite flush_begun_db. apply Hplan.
    rewrite flush_begun_events, length_app in Hi. simpl in Hi. lia.
Qed.

Lemma flush_ok (w : World) (e : Event.t) :
  last (events (self w)) = Some e →
  closed (db (self w)) = false →
  (∀ i, i ≤ length (events (self w)) →
        fault_plan (db (self w)) (calls (db (self w)) + i) = false) →
  flush strftime w = (Ok tt, flushed strftime w).
Proof.
  intros Hlast Hopen Hplan.
  rewrite (flush_begin w e Hlast).
  erewrite bind_ok by (by apply on_db_cursor).
  unfold bind at 1, gets at 1. cbn [compose].
  erewrite bind_ok by (apply flush_loop_begun_ok; [done|]; intros; apply Hplan; lia).
  unfold bind at 1, gets at 1.
  unfold bind at 1, set_events at 1, modify at 1.
  destruct (close_ends_snoc (events (self w)) (housekeeping w))
    as (l' & Hclose & Hlen).
  erewrite bind_ok.
  2:{ apply on_db_commit; [done|].
      destruct w as [[n d p evs st off cr] ck].
      cbn -[app rows] in *. rewrite rows_length, length_app.
      cbn [length].
      replace (length evs + 1 - 1) with (length evs) by lia.
      by apply Hplan. }
  erewrite bind_ok by apply on_db_cursor_close.
  rewrite append_run. unfold flushed. rewrite Hlast.
  cbn [compose]. autorewrite with world.
  by rewrite flush_begun_events, Hclose, slice_last_snoc.
Qed.

Lemma flush_closed (w : World) (e : Event.t) :
  last (events (self w)) = Some e →
  closed (db (self w)) = true →
  flush strftime w = (Raise InterfaceError, flush_begun w).
Proof.
  intros Hlast Hclosed. rewrite (flush_begin w e Hlast).
  by erewrite bind_raise by (by apply on_db_cursor_closed).
Qed.

Lemma flush_insert_fails (w : World) (e : Event.t) (j : nat) :
  last (events (self w)) = Some e →
  closed (db (self w)) = false →
  j < length (events (self w)) →
  (∀ i, i < j →
        fault_plan (db (self w)) (calls (db (self w)) + i) = false) →
  fault_plan (db (self w)) (calls (db (self w)) + j) = true →
  flush strftime w =
  (Raise DatabaseError,
   with_db (failed_call
              (executed
                 (rows strftime (self w)
                    (take (S j) (events (self (flush_begun w)))))
                 (db (self w))))
     (with_events (close_prefix (S j) (events (self (flush_begun w))))
        (flush_begun w))).
Proof.
  intros Hlast Hopen Hj Hplan Hfault.
  rewrite (flush_begin w e Hlast).
  erewrite bind_ok by (by apply on_db_cursor).
  unfold bind at 1, gets at 1. cbn [compose].
  pose proof (flush_loop_fail (events (self (flush_begun w))) []
                (flush_begun w) j eq_refl Hopen) as Hloop.
  cbn [length app] in Hloop.
  erewrite bind_raise.
  2:{ apply Hloop; [|done..].
      rewrite flush_begun_events, length_app. simpl. lia. }
  by rewrite (rows_frame _ (self w)).
Qed.

Lemma flush_commit_fails (w : World) (e : Event.t) :
  last (events (self w)) = Some e →
  closed (db (self w)) = false →
  (∀ i, i < length (events (self w)) →
        fault_plan (db (self w)) (calls (db (self w)) + i) = false) →
  fault_plan (db (self w))
    (calls (db (self w)) + length (events (self w))) = true →
  flush strftime w =
  (Raise DatabaseError,
   with_db (failed_call
              (executed
                 (rows strftime (self w) (events (self (flush_begun w))))
                 (db (self w))))
     (with_events [housekeeping w] (flush_begun w))).
Proof.
  intros Hlast Hopen Hplan Hfault.
  rewrite (flush_begin w e Hlast).
  erewrite bind_ok by (by apply on_db_cursor).
  unfold bind at 1, gets at 1. cbn [compose].
  erewrite bind_ok by (by apply flush_loop_begun_ok).
  unfold bind at 1, gets at 1.
  unfold bind at 1, set_events at 1, modify at 1.
  destruct (close_ends_snoc (events (self w)) (housekeeping w))
    as (l' & Hclose & Hlen).
  erewrite bind_raise.
  2:{ apply on_db_commit_fail; [done|].
      autorewrite with world. unfold executed. cbn [calls fault_plan].
      rewrite rows_length, flush_begun_events, length_app. cbn [length].
      replace (length (events (self w)) + 1 - 1) with
        (length (events (self w))) by lia.
      done. }
  cbn [compose]. autorewrite with world.
  by rewrite flush_begun_events, Hclose, slice_last_snoc.
Qed.

Lemma first_fault (plan : nat → bool) (c n : nat) :
  (∀ i, i < n → plan (c + i) = false) ∨
  (∃ j, j < n ∧ plan (c + j) = true ∧ ∀ i, i < j → plan (c + i) = false).
Proof.
  induction n as [|n [IH|(j & Hj & Hfault & Hbefore)]].
  - left. intros i Hi. lia.
  - destruct (plan (c + n)) eqn:Hn.
    + right. exists n. split; [lia|]. split; [done|].
      intros i Hi. apply IH. lia.
    + left. intros i Hi. destruct (decide (i = n)) as [->|]; [done|].
      apply IH. lia.
  - right. exists j. split; [lia|]. done.
Qed.

(** Every [flush] goes one of the five ways. *)
Lemma flush_cases (w : World) :
  flush_outcome strftime w (flush strftime w).
Proof.
  destruct (last (events (self w))) as [e|] eqn:Hlast.
  2:{ apply last_None in Hlast. rewrite flush_empty by done.
      by constructor. }
  assert (events (self w) ≠ []) as Hne by (intros E; by rewrite E in Hlast).
  destruct (closed (db (self w))) eqn:Hclosed.
  { rewrite (flush_closed w e) by done. by constructor. }
  destruct (first_fault (fault_plan (db (self w))) (calls (db (self w)))
              (S (length (events (self w)))))
    as [Hok|(j & Hj & Hfault & Hbefore)].
  - rewrite (flush_ok w e); [|done..|intros; apply Hok; lia].
    constructor; [done..|]. intros. apply Hok. lia.
  - destruct (decide (j = length (events (self w)))) as [->|Hneq].
    + rewrite (flush_commit_fails w e) by done. by constructor.
    + rewrite (flush_insert_fails w e j); [|done|done|lia|done..].
      constructor; [lia|done..].
Qed.

(** ** The buffer is in order of time *)

Lemma in_order_initial (w : World) :
  events (self w) = [] → monotonic (clock w) → in_order w.
Proof.
  intros Hevs Hmono. unfold in_order, timeline, ends_after_starts.
  rewrite Hevs. simpl. repeat split; [done| |done].
  repeat constructor.
Qed.

Lemma timeline_le_now (w : World) (t : Z) :
  StronglySorted Z.le (timeline w) → t ∈ timeline w → (t ≤ now w)%Z.
Proof.
  unfold timeline. intros Hs [Ht|Ht]%elem_of_app.
  - eapply StronglySorted_app_1_elem_of; [done..|]. constructor.
  - apply list_elem_of_singleton in Ht. lia.
Qed.

Lemma in_order_appended (state : string) (comment : option string)
    (records : option Z) (w : World) :
  in_order w → in_order (appended state comment records w).
Proof.
  intros (Hmono & Hsorted & Hends). split; [done|]. split.
  - change (timeline (appended state comment records w)) with
      ((Event.start <$> events (self w) ++
          [new_event state comment records w]) ++ [now (ticked w)]).
    rewrite fmap_app. cbn [fmap list_fmap].
    change ((Event.start <$> events (self w)) ++
              [Event.start (new_event state comment records w)])
      with (timeline w).
    apply StronglySorted_app_2; [|done|repeat constructor].
    intros x1 x2 Hx1 ->%list_elem_of_singleton.
    etrans; [by apply timeline_le_now|]. apply Hmono.
  - change (events (self (appended state comment records w))) with
      (events (self w) ++ [new_event state comment records w]).
    apply Forall_app. split; [done|]. constructor; [|done].
    intros t. unfold new_event. cbn [Event.end_ Event.start].
    case_decide; [done|]. intros [= <-]. done.
Qed.

Lemma close_prefix_starts (k : nat) (l : list Event.t) :
  Event.start <$> close_prefix k l = Event.start <$> l.
Proof.
  revert l. induction k as [|k IH]; intros l; [by destruct l|].
  destruct l as [|e [|e' l]]; [done..|].
  rewrite close_prefix_cons. rewrite !fmap_cons, IH. done.
Qed.

Lemma close_prefix_ends (k : nat) (l : list Event.t) :
  StronglySorted Z.le (Event.start <$> l) →
  ends_after_starts l → ends_after_starts (close_prefix k l).
Proof.
  revert l. induction k as [|k IH]; intros l Hs Hends; [by destruct l|].
  destruct l as [|e [|e' l]]; [done..|].
  rewrite close_prefix_cons.
  apply Forall_cons in Hends as [_ Hends].
  rewrite fmap_cons in Hs. apply StronglySorted_cons in Hs as [Hle Hs].
  constructor; [|by apply IH].
  intros t [= <-]. cbn [Event.start Event.set_end].
  rewrite fmap_cons in Hle. by apply Forall_cons in Hle as [Hle _].
Qed.

Lemma in_order_with_db (c : Connection) (w : World) :
  in_order w → in_order (with_db c w).
Proof. done. Qed.

Lemma in_order_close_prefix (k : nat) (w : World) :
  in_order w → in_order (with_events (close_prefix k (events (self w))) w).
Proof.
  intros (Hmono & Hsorted & Hends). split; [done|].
  unfold timeline in *. cbn [with_events self events].
  change (now (with_events (close_prefix k (events (self w))) w))
    with (now w).
  rewrite close_prefix_starts. split; [done|].
  apply close_prefix_ends; [|done].
  by apply StronglySorted_app_1_l in Hsorted.
Qed.

Lemma in_order_keep_housekeeping (w : World) :
  in_order w →
  in_order (with_events [housekeeping w] (flush_begun w)).
Proof.
  intros (Hmono & Hsorted & Hends). split; [done|]. split.
  - unfold timeline. cbn [with_events self events fmap list_fmap app].
    repeat constructor. apply Hmono.
  - constructor; [|done]. intros t. unfold housekeeping, new_event.
    cbn [Event.end_ Event.start]. case_decide; [done|]. by intros [= <-].
Qed.

Lemma in_order_flush (w : World) :
  in_order w → in_order (flush strftime w).2.
Proof.
  intros Hw. destruct (flush_cases w); cbn [snd].
  - done.
  - by apply in_order_appended.
  - apply in_order_with_db. apply (in_order_close_prefix _ (flush_begun w)).
    by apply in_order_appended.
  - apply in_order_with_db. by apply in_order_keep_housekeeping.
  - unfold flushed. destruct (last (events (self w))); [|done].
    apply in_order_appended, in_order_with_db.
    by apply in_order_keep_housekeeping.
Qed.

Lemma in_order_run_calls (cs : list Call) (w : World) :
  in_order w → in_order (run_calls strftime cs w).
Proof.
  revert w. induction cs as [|c cs IH]; intros w Hw; [done|].
  apply IH. destruct c as [state comment records|]; cbn [call].
  - rewrite append_run. by apply in_order_appended.
  - by apply in_order_flush.
Qed.

Lemma in_order_lookup (w : World) (i j : nat) (a b : Event.t) :
  in_order w → i ≤ j →
  events (self w) !! i = Some a → events (self w) !! j = Some b →
  (Event.start a ≤ Event.start b)%Z.
Proof.
  intros (_ & Hsorted & _) Hij Ha Hb.
  apply StronglySorted_app_1_l in Hsorted.
  destruct (decide (i = j)) as [->|Hne]; [by simplify_eq|].
  rewrite <- (take_drop_middle _ _ _ Hb), fmap_app, fmap_cons in Hsorted.
  eapply StronglySorted_app_1_elem_of; [exact Hsorted| |constructor].
  apply list_elem_of_lookup. exists i.
  rewrite list_lookup_fmap, lookup_take_lt by lia. by rewrite Ha.
Qed.

(** ** The rows of a flush *)

Lemma rows_lookup (p : Profiler) (l : list Event.t) (i : nat)
    (a b : Event.t) :
  l !! i = Some a → l !! S i = Some b →
  rows strftime p l !! i = Some (row_of strftime p a (Event.start b)).
Proof.
  revert i. induction l as [|e l IH]; intros i Ha Hb; [done|].
  destruct l as [|e' l]; [done|]. rewrite rows_cons.
  destruct i as [|i]; [by simplify_eq/=|]. by apply IH.
Qed.

Lemma flush_healthy (w : World) (e : Event.t) :
  last (events (self w)) = Some e → healthy (db (self w)) →
  flush strftime w = (Ok tt, flushed strftime w).
Proof.
  intros Hlast [Hopen Hplan]. by apply (flush_ok w e).
Qed.

Lemma flushed_events (w : World) (e : Event.t) :
  last (events (self w)) = Some e →
  events (self (flushed strftime w)) =
  [housekeeping w;
   Event.mk (Event.state e) (Event.comment e) (Event.records e)
     (perf (clock w) (S (perf_reads (clock w))))
     (Some (perf (clock w) (S (perf_reads (clock w)))))].
Proof. intros Hlast. unfold flushed. by rewrite Hlast. Qed.

Lemma flushed_db (w : World) (e : Event.t) :
  last (events (self w)) = Some e →
  db (self (flushed strftime w)) =
  committed_all
    (executed
       (rows strftime (self w) (events (self w) ++ [housekeeping w]))
       (db (self w))).
Proof. intros Hlast. unfold flushed. by rewrite Hlast. Qed.

Lemma flushed_healthy (w : World) :
  healthy (db (self w)) → healthy (db (self (flushed strftime w))).
Proof.
  intros Hw. destruct (last (events (self w))) as [e|] eqn:Hlast.
  - by rewrite (flushed_db w e).
  - unfold flushed. by rewrite Hlast.
Qed.

Lemma flushed_committed (w : World) (e : Event.t) :
  last (events (self w)) = Some e →
  committed (db (self (flushed strftime w))) =
  committed (db (self w)) ++ pending (db (self w)) ++
  rows strftime (self w) (events (self w) ++ [housekeeping w]) ∧
  pending (db (self (flushed strftime w))) = [].
Proof. intros Hlast. by rewrite (flushed_db w e). Qed.

Lemma rows_of_buffer (p : Profiler) (l : list Event.t) (x : Event.t)
    (i : nat) (ev : Event.t) :
  l !! i = Some ev →
  ∃ t_end,
    rows strftime p (l ++ [x]) !! i = Some (row_of strftime p ev t_end).
Proof.
  intros Hev.
  assert (i < length l) as Hi by (by eapply lookup_lt_Some).
  destruct ((l ++ [x]) !! S i) as [b|] eqn:Hb.
  - exists (Event.start b). apply rows_lookup; [|done].
    by rewrite lookup_app_l.
  - apply lookup_ge_None in Hb. rewrite length_app in Hb. simpl in Hb. lia.
Qed.

Lemma flush_healthy_any (w : World) :
  healthy (db (self w)) → flush strftime w = (Ok tt, flushed strftime w).
Proof.
  intros Hw. destruct (last (events (self w))) as [e|] eqn:Hlast.
  - by apply (flush_healthy w e).
  - unfold flushed. rewrite Hlast. apply flush_empty.
    by apply last_None.
Qed.

Lemma close_prefix_length (k : nat) (l : list Event.t) :
  length (close_prefix k l) = length l.
Proof.
  by rewrite <- (length_fmap Event.start), close_prefix_starts, length_fmap.
Qed.

(** No [flush] opens or closes the connection. *)
Lemma flush_keeps_connection (w : World) :
  closed (db (self (flush strftime w).2)) = closed (db (self w)).
Proof.
  destruct (flush_cases w); cbn [snd]; try done.
  unfold flushed. by destruct (last (events (self w))).
Qed.

Lemma on_db_execute (w : World) (s : Stmt) :
  closed (db (self w)) = false →
  fault_plan (db (self w)) (calls (db (self w))) = false →
  (∀ n c, s ≠ InsertProfile n c) →
  on_db (Db.execute s) w =
  (Ok None, with_db (executed [s] (db (self w))) w).
Proof.
  intros H1 H2 Hs. unfold on_db, Db.execute, executed.
  rewrite H2, !H1. cbn [length].
  replace (calls (db (self w)) + 1) with (S (calls (db (self w)))) by lia.
  destruct s; [by destruct (Hs name0 comment)|done..].
Qed.

(** Under a clock that never goes back, an [end] that is set is never
    before the [start] of its Event, whatever the calls and whatever the
    store does. *)
Lemma ends_after_starts_run_calls (w0 : World) (cs : list Call) :
  events (self w0) = [] → monotonic (clock w0) →
  ends_after_starts (events (self (run_calls strftime cs w0))).
Proof.
  intros Hevs Hmono.
  by apply (in_order_run_calls cs w0), in_order_initial.
Qed.

(** ** What [append] does *)

(** C10: [append] validates nothing.  Whatever the state string (the
    empty one too), the comment and the record count, present or absent,
    it returns without raising and the buffer gains one Event that
    carries exactly these values. *)
Theorem append_accepts_any_arguments (state : string)
    (comment : option string) (records : option Z) (w : World) :
  (append state comment records w).1 = Ok tt ∧
  ∃ ev,
    events (self (append state comment records w).2) =
    events (self w) ++ [ev] ∧
    Event.state ev = state ∧
    Event.comment ev = comment ∧
    Event.records ev = records.
Proof.
  rewrite append_run. split; [done|].
  by exists (new_event state comment records w).
Qed.

(** C1, at the failing input: [append] on a non-empty buffer leaves the
    previous Event as it was, its [end] included, and sets the [end] of
    the Event it adds to that Event's own [start]: [events[-1]] is
    written where [events[-2]] is meant. *)
Theorem append_closes_the_new_event (state : string)
    (comment : option string) (records : option Z) (w : World)
    (prev : Event.t) :
  last (events (self w)) = Some prev →
  let evs' := events (self (append state comment records w).2) in
  evs' = events (self w) ++
         [Event.mk state comment records (now w) (Some (now w))] ∧
  evs' !! (length (events (self w)) - 1) = Some prev.
Proof.
  intros Hlast. rewrite append_run. cbn [snd].
  change (events (self (appended state comment records w))) with
    (events (self w) ++ [new_event state comment records w]).
  assert (events (self w) ≠ []) as Hne by (intros E; by rewrite E in Hlast).
  unfold new_event. rewrite decide_False by done. split; [done|].
  rewrite last_lookup in Hlast.
  rewrite lookup_app_l by (destruct (events (self w)); [done|simpl; lia]).
  by replace (length (events (self w)) - 1) with
    (pred (length (events (self w)))) by lia.
Qed.

(** C6, at the failing input: after two [append] calls on an empty
    buffer the first Event, no longer the active one, has no [end],
    and the active Event has one (its own [start]). *)
Theorem two_appends_break_the_invariant (w : World)
    (state state' : string) (comment comment' : option string)
    (records records' : option Z) :
  events (self w) = [] →
  ∃ a b,
    events (self (run_calls strftime
                    [CallAppend state comment records;
                     CallAppend state' comment' records'] w)) = [a; b] ∧
    Event.end_ a = None ∧
    Event.end_ b = Some (Event.start b).
Proof.
  intros Hevs. cbn [run_calls foldl call]. rewrite !append_run.
  unfold appended at 1. cbn [with_events self events].
  unfold appended at 1. cbn [with_events self events ticked].
  rewrite Hevs. cbn [app].
  eexists _, _. split; [done|].
  unfold new_event. cbn [Event.end_ Event.start snd].
  rewrite decide_True by done. split; [done|].
  change (events (self (appended state comment records w))) with
    (events (self w) ++ [new_event state comment records w]).
  by rewrite decide_False by (by destruct (events (self w))).
Qed.

(** ** What [flush] does *)

(** C9: [flush] on an empty buffer does nothing: it returns without
    raising and the whole world (the store, the clock and every field
    of the Profiler) is as before. *)
Theorem flush_of_empty_buffer_is_noop (w : World) :
  events (self w) = [] → flush strftime w = (Ok tt, w).
Proof. apply flush_empty. Qed.

(** C2, amended: with a store that accepts every call, [flush] on a
    buffer of N ≥ 1 Events returns without raising and commits exactly N
    new rows, the i-th being the row of the i-th Event of the buffer as
    it was; the housekeeping Event is not among them, it stays in the
    buffer.  Two Events are left: the housekeeping Event and, last, a
    new Event with the state, comment and records of the Event that was
    active. *)
Theorem flush_persists_the_buffer (w : World) (e : Event.t) :
  last (events (self w)) = Some e →
  healthy (db (self w)) →
  let hk := housekeeping w in
  let t := perf (clock w) (S (perf_reads (clock w))) in
  let new_rows := rows strftime (self w) (events (self w) ++ [hk]) in
  let w' := (flush strftime w).2 in
  (flush strftime w).1 = Ok tt ∧
  committed (db (self w')) =
    committed (db (self w)) ++ pending (db (self w)) ++ new_rows ∧
  pending (db (self w')) = [] ∧
  length new_rows = length (events (self w)) ∧
  (∀ i ev, events (self w) !! i = Some ev →
           ∃ t_end,
             new_rows !! i = Some (row_of strftime (self w) ev t_end)) ∧
  Event.state hk = "Profiler Housekeeping" ∧
  events (self w') =
    [hk; Event.mk (Event.state e) (Event.comment e) (Event.records e)
           t (Some t)].
Proof.
  intros Hlast Hw. cbn zeta. rewrite (flush_healthy w e) by done.
  cbn [fst snd]. destruct (flushed_committed w e Hlast) as [-> ->].
  rewrite (flushed_events w e) by done.
  rewrite rows_length, length_app. cbn [length].
  repeat split; [lia|].
  intros i ev Hev. by apply rows_of_buffer.
Qed.

(** C4, amended: from a new Profiler with a store that accepts every
    call, append("Run #0", records=100); append("Run #1", records=200);
    flush() commits exactly two rows, one for "Run #0" with records=100
    and one for "Run #1" with records=200, each ending where the next
    Event starts; the buffer then holds two Events, "Profiler
    Housekeeping" and after it "Run #1" with records=200. *)
Theorem scenario_persists_both_runs (w : World) :
  events (self w) = [] →
  healthy (db (self w)) →
  let t (k : nat) := perf (clock w) (perf_reads (clock w) + k) in
  let at_ (k : nat) := strftime (wall_clock (self w) (t k)) in
  let w' := run_calls strftime
              [CallAppend "Run #0" None (Some 100%Z);
               CallAppend "Run #1" None (Some 200%Z);
               CallFlush] w in
  committed (db (self w')) =
    committed (db (self w)) ++ pending (db (self w)) ++
    [InsertEvent (pid (self w)) "Run #0" (at_ 0) (at_ 1) (Some 100%Z) None;
     InsertEvent (pid (self w)) "Run #1" (at_ 1) (at_ 2) (Some 200%Z) None]
  ∧ events (self w') =
    [Event.mk "Profiler Housekeeping" None None (t 2) (Some (t 2));
     Event.mk "Run #1" None (Some 200%Z) (t 3) (Some (t 3))].
Proof.
  intros Hevs Hw. cbn zeta. cbn [run_calls foldl call].
  rewrite !append_run. cbn [snd].
  set (w2 := appended "Run #1" None (Some 200%Z)
               (appended "Run #0" None (Some 100%Z) w)).
  assert (events (self w2) =
          [Event.mk "Run #0" None (Some 100%Z)
             (perf (clock w) (perf_reads (clock w))) None;
           Event.mk "Run #1" None (Some 200%Z)
             (perf (clock w) (S (perf_reads (clock w))))
             (Some (perf (clock w) (S (perf_reads (clock w)))))]) as Hev2.
  { unfold w2, appended, new_event, now.
    cbn [with_events self events ticked clock perf perf_reads].
    rewrite Hevs. done. }
  assert (last (events (self w2)) =
          Some (Event.mk "Run #1" None (Some 200%Z)
             (perf (clock w) (S (perf_reads (clock w))))
             (Some (perf (clock w) (S (perf_reads (clock w))))))) as Hlast
    by (by rewrite Hev2).
  rewrite (flush_healthy w2 _ Hlast) by done. cbn [snd].
  destruct (flushed_committed w2 _ Hlast) as [-> _].
  rewrite (flushed_events w2 _ Hlast), Hev2.
  replace (perf_reads (clock w) + 0) with (perf_reads (clock w)) by lia.
  replace (perf_reads (clock w) + 1) with (S (perf_reads (clock w))) by lia.
  replace (perf_reads (clock w) + 2) with (S (S (perf_reads (clock w))))
    by lia.
  replace (perf_reads (clock w) + 3)
    with (S (S (S (perf_reads (clock w))))) by lia.
  unfold housekeeping, new_event, now. rewrite Hev2.
  rewrite decide_False by done. split; reflexivity.
Qed.

(** C5, amended: with a store that accepts every call, a second [flush]
    right after a first commits exactly two more rows when the buffer
    was not empty: the housekeeping interval of the first flush and the
    interval of the Event that resumed the active state, these being the
    two Events the first flush leaves; on an empty buffer both are
    no-ops and nothing is committed. *)
Theorem second_flush_persists_two_rows (w : World) :
  healthy (db (self w)) →
  let w1 := (flush strftime w).2 in
  let w2 := (flush strftime w1).2 in
  (flush strftime w).1 = Ok tt ∧
  (flush strftime w1).1 = Ok tt ∧
  (events (self w) = [] → w2 = w) ∧
  (∀ e, last (events (self w)) = Some e →
        ∃ hk resumed t_end,
          events (self w1) = [hk; resumed] ∧
          Event.state hk = "Profiler Housekeeping" ∧
          Event.state resumed = Event.state e ∧
          committed (db (self w2)) =
            committed (db (self w1)) ++
            [row_of strftime (self w1) hk (Event.start resumed);
             row_of strftime (self w1) resumed t_end]).
Proof.
  intros Hw. cbn zeta. rewrite (flush_healthy_any w) by done.
  cbn [fst snd].
  rewrite (flush_healthy_any (flushed strftime w))
    by (by apply flushed_healthy).
  cbn [fst snd]. split; [done|]. split; [done|]. split.
  - intros Hevs.
    assert (flushed strftime w = w) as ->
      by (unfold flushed; by rewrite Hevs).
    unfold flushed. by rewrite Hevs.
  - intros e Hlast. eexists _, _, _.
    rewrite (flushed_events w e) by done. split; [done|].
    split; [done|]. split; [done|].
    assert (last (events (self (flushed strftime w))) =
            Some (Event.mk (Event.state e) (Event.comment e)
                    (Event.records e)
                    (perf (clock w) (S (perf_reads (clock w))))
                    (Some (perf (clock w) (S (perf_reads (clock w)))))))
      as Hlast1 by (by rewrite (flushed_events w e)).
    destruct (flushed_committed _ _ Hlast1) as [-> _].
    destruct (flushed_committed w e Hlast) as [_ ->].
    rewrite (flushed_events w e) by done. reflexivity.
Qed.

(** C3, amended: when the first store call that fails during [flush]
    is an insert or the commit, [flush] raises and nothing is committed,
    but the buffer is not restored.  After a failing insert it holds the
    Events it had, those up to the failing one with [end] set to the
    next [start], followed by the housekeeping Event; after a failing
    commit it holds the housekeeping Event alone. *)
Theorem flush_failure_changes_the_buffer (w : World) (e : Event.t)
    (j : nat) :
  last (events (self w)) = Some e →
  closed (db (self w)) = false →
  j ≤ length (events (self w)) →
  (∀ i, i < j →
        fault_plan (db (self w)) (calls (db (self w)) + i) = false) →
  fault_plan (db (self w)) (calls (db (self w)) + j) = true →
  let w' := (flush strftime w).2 in
  (flush strftime w).1 = Raise DatabaseError ∧
  committed (db (self w')) = committed (db (self w)) ∧
  (j < length (events (self w)) →
     events (self w') =
       close_prefix (S j) (events (self w) ++ [housekeeping w]) ∧
     length (events (self w')) = S (length (events (self w)))) ∧
  (j = length (events (self w)) →
     events (self w') = [housekeeping w]).
Proof.
  intros Hlast Hopen Hj Hplan Hfault. cbn zeta.
  destruct (decide (j = length (events (self w)))) as [->|Hneq].
  - rewrite (flush_commit_fails w e) by done. cbn [fst snd].
    split; [done|]. split; [done|]. split; [lia|done].
  - rewrite (flush_insert_fails w e j); [|done|done|lia|done..].
    cbn [fst snd]. split; [done|]. split; [done|]. split; [|done].
    intros _. autorewrite with world. rewrite flush_begun_events.
    split; [done|]. rewrite close_prefix_length, length_app.
    simpl. lia.
Qed.

(** C7: every row [flush] writes renders created + (t - offset) for
    the start [t] of its Event and for the start of the next Event, which
    is the end of its interval; [append] converts nothing, it leaves the
    store and the pair created/offset alone and records the reading of
    the monotonic clock as it is; and under a clock that never goes
    back, in every buffer that calls of [append] and [flush] build, an
    Event that comes before another has the earlier or the same
    wall-clock start. *)
Theorem wall_clock_conversion (w0 : World) (cs : list Call) :
  events (self w0) = [] →
  monotonic (clock w0) →
  let w := run_calls strftime cs w0 in
  (∀ e, last (events (self w)) = Some e →
        healthy (db (self w)) →
        let l := events (self w) ++ [housekeeping w] in
        ∃ new_rows,
          committed (db (self (flush strftime w).2)) =
            committed (db (self w)) ++ pending (db (self w)) ++ new_rows ∧
          length new_rows = length (events (self w)) ∧
          ∀ i a b,
            l !! i = Some a → l !! S i = Some b →
            new_rows !! i =
            Some (InsertEvent (pid (self w)) (Event.state a)
                    (strftime (created (self w) +
                               (Event.start a - offset (self w))))
                    (strftime (created (self w) +
                               (Event.start b - offset (self w))))
                    (Event.records a) (Event.comment a))) ∧
  (∀ state comment records,
     let w' := (append state comment records w).2 in
     db (self w') = db (self w) ∧
     created (self w') = created (self w) ∧
     offset (self w') = offset (self w) ∧
     ∃ ev, last (events (self w')) = Some ev ∧
           Event.start ev = perf (clock w) (perf_reads (clock w))) ∧
  (∀ i j a b,
     i ≤ j →
     events (self w) !! i = Some a → events (self w) !! j = Some b →
     (wall_clock (self w) (Event.start a) ≤
      wall_clock (self w) (Event.start b))%Z).
Proof.
  intros Hevs Hmono. cbn zeta.
  set (w := run_calls strftime cs w0). split; [|split].
  - intros e Hlast Hw. eexists. rewrite (flush_healthy w e) by done.
    cbn [snd]. destruct (flushed_committed w e Hlast) as [-> _].
    split; [done|]. split.
    + rewrite rows_length, length_app. simpl. lia.
    + intros i a b Ha Hb. by rewrite (rows_lookup _ _ _ a b).
  - intros state comment records. rewrite append_run. cbn [snd].
    repeat split. eexists. split; [apply last_snoc|done].
  - intros i j a b Hij Ha Hb. unfold wall_clock.
    assert (Event.start a ≤ Event.start b)%Z; [|lia].
    eapply (in_order_lookup w i j); [|done..].
    by apply in_order_run_calls, in_order_initial.
Qed.

(** ** Construction *)

(** A Profiler that [__init__] returns has an empty buffer, and its
    [offset] is the reading of the monotonic clock at that time. *)
Lemma init_empty_buffer
    (connect : string → string → string → string → result Connection)
    (name : string) (kwargs : gmap string string) (c c' : Clock)
    (p : Profiler) :
  __init__ connect name kwargs c = (Ok p, c') →
  events p = [] ∧ offset p = perf c (perf_reads c) ∧ perf c' = perf c.
Proof.
  unfold __init__. destruct (connect_to_db connect kwargs) as [conn|e];
    [|done].
  destruct (create_new_profile _ _ conn) as [[new_row|e] conn']; [|done].
  by intros [= <- <-].
Qed.

(** ** Leaving the [with] block *)

Lemma exit_run (w : World) (exc : option exn) :
  healthy (db (self w)) →
  __exit__ strftime exc w =
  (Ok tt,
   with_db
     (released
        (committed_all
           (executed [UpdateProfileEnded (pid (self w))]
              (db (self (flushed strftime w))))))
     (flushed strftime w)).
Proof.
  intros Hw.
  pose proof (flushed_healthy w Hw) as [Hopen Hplan].
  unfold __exit__.
  erewrite bind_ok by (by apply flush_healthy_any).
  erewrite bind_ok by (by apply on_db_cursor).
  unfold bind at 1, gets at 1.
  erewrite bind_ok by (by apply on_db_execute).
  erewrite bind_ok by (apply on_db_commit; [exact Hopen|apply Hplan]).
  erewrite bind_ok by apply on_db_cursor_close.
  unfold on_db, Db.close. autorewrite with world.
  do 5 f_equal. unfold flushed. by destruct (last (events (self w))).
Qed.

Lemma exit_healthy (w : World) (exc : option exn) :
  healthy (db (self w)) →
  let w1 := flushed strftime w in
  let w' := (__exit__ strftime exc w).2 in
  (__exit__ strftime exc w).1 = Ok tt ∧
  committed (db (self w')) =
    committed (db (self w1)) ++ pending (db (self w1)) ++
    [UpdateProfileEnded (pid (self w))] ∧
  pending (db (self w')) = [] ∧
  closed (db (self w')) = true.
Proof.
  intros Hw. cbn zeta. rewrite exit_run by done.
  cbn [fst snd with_db self db committed pending closed committed_all
       executed released].
  by rewrite app_assoc.
Qed.

Lemma exit_flush_raises (w : World) (exc : option exn) (e : exn) :
  (flush strftime w).1 = Raise e →
  __exit__ strftime exc w = (Raise e, (flush strftime w).2).
Proof.
  intros Hraise. unfold __exit__.
  destruct (flush strftime w) as [r w'] eqn:Hflush.
  cbn [fst snd] in *. subst r. by erewrite bind_raise.
Qed.

(** C8, amended: every [with] block ends in [__exit__], whether its
    body returned or raised.  With a store that accepts every call,
    [__exit__] flushes, updates the registry row of its [pid] with an end
    timestamp, commits and closes the connection.  When its [flush]
    raises, the exception leaves [__exit__] at once and the connection
    stays open: nothing releases it on that path. *)
Theorem exit_closes_the_profile (w : World) (exc : option exn) :
  closed (db (self w)) = false →
  (∀ A (body : M World A),
     (with_profiler strftime body w).2 =
     (__exit__ strftime
        (match (body w).1 with Ok _ => None | Raise e => Some e end)
        (body w).2).2) ∧
  (healthy (db (self w)) →
   let w1 := (flush strftime w).2 in
   let w' := (__exit__ strftime exc w).2 in
   (__exit__ strftime exc w).1 = Ok tt ∧
   committed (db (self w')) =
     committed (db (self w1)) ++ pending (db (self w1)) ++
     [UpdateProfileEnded (pid (self w))] ∧
   pending (db (self w')) = [] ∧
   closed (db (self w')) = true) ∧
  (∀ e, (flush strftime w).1 = Raise e →
        (__exit__ strftime exc w).1 = Raise e ∧
        closed (db (self (__exit__ strftime exc w).2)) = false).
Proof.
  intros Hopen. split; [|split].
  - intros A body. unfold with_profiler.
    destruct (body w) as [[a|e] w1]; cbn [fst snd];
      by destruct (__exit__ strftime _ w1) as [[[]|e'] w2].
  - intros Hw. cbn zeta. rewrite (flush_healthy_any w) by done.
    by apply exit_healthy.
  - intros e Hraise. rewrite (exit_flush_raises w exc e) by done.
    cbn [fst snd]. split; [done|].
    by rewrite flush_keeps_connection.
Qed.

(** ** What no method changes *)

Lemma flush_frame (w : World) :
  identity (flush strftime w).2 = identity w ∧
  perf (clock (flush strftime w).2) = perf (clock w) ∧
  wall (clock (flush strftime w).2) = wall (clock w) ∧
  wall_reads (clock (flush strftime w).2) = wall_reads (clock w).
Proof.
  destruct (flush_cases w); cbn [snd]; try done.
  unfold flushed. by destruct (last (events (self w))).
Qed.

Lemma db_only_bind {A B} (m : M World A) (k : A → M World B) :
  db_only m → (∀ a, db_only (k a)) → db_only (bind m k).
Proof.
  intros Hm Hk w. destruct (Hm w) as [c Hc]. unfold bind.
  destruct (m w) as [[a|e] w1]; cbn [snd] in *; subst w1.
  - destruct (Hk a (with_db c w)) as [c' Hc']. exists c'.
    by rewrite Hc', with_db_twice.
  - by exists c.
Qed.

Lemma db_only_on_db {A} (m : M Connection A) : db_only (on_db m).
Proof.
  intros w. unfold on_db. destruct (m (db (self w))) as [r c]. by exists c.
Qed.

Lemma db_only_gets {A} (f : World → A) : db_only (gets f).
Proof. intros w. exists (db (self w)). by rewrite with_db_id. Qed.

(** [__exit__] is its [flush] followed by calls on the connection. *)
Lemma exit_after_flush (w : World) (exc : option exn) :
  ∃ c, (__exit__ strftime exc w).2 = with_db c (flush strftime w).2.
Proof.
  unfold __exit__. unfold bind at 1.
  destruct (flush strftime w) as [[[]|e] w1]; cbn [snd].
  - apply db_only_bind; [apply db_only_on_db|]. intros _.
    apply db_only_bind; [apply db_only_gets|]. intros p.
    repeat (apply db_only_bind; [apply db_only_on_db|]; intros _).
    apply db_only_on_db.
  - exists (db (self w1)). by rewrite with_db_id.
Qed.

Lemma run_calls_frame (cs : list Call) (w : World) :
  identity (run_calls strftime cs w) = identity w ∧
  perf (clock (run_calls strftime cs w)) = perf (clock w) ∧
  wall (clock (run_calls strftime cs w)) = wall (clock w) ∧
  wall_reads (clock (run_calls strftime cs w)) = wall_reads (clock w).
Proof.
  revert w. induction cs as [|c cs IH]; intros w; [done|].
  change (run_calls strftime (c :: cs) w) with
    (run_calls strftime cs (call strftime c w).2).
  destruct (IH (call strftime c w).2) as (-> & -> & -> & ->).
  destruct c as [state comment records|]; cbn [call].
  - by rewrite append_run.
  - apply flush_frame.
Qed.

(** X1: [name], [pid], [start], [offset] and [created] are set by
    [__init__] and by nothing else: whatever calls of [append] and [flush]
    a caller makes, whether they raise or not, and after [__exit__] too,
    the five fields are what they were. *)
Theorem session_identity_is_fixed (cs : list Call) (exc : option exn)
    (w : World) :
  identity (run_calls strftime cs w) = identity w ∧
  identity (__exit__ strftime exc (run_calls strftime cs w)).2 = identity w.
Proof.
  destruct (run_calls_frame cs w) as [Hid _]. split; [done|].
  destruct (exit_after_flush (run_calls strftime cs w) exc) as [c ->].
  change (identity (with_db c ?x)) with (identity x).
  destruct (flush_frame (run_calls strftime cs w)) as [-> _]. done.
Qed.


(** X3: [flush] reads [time.perf_counter()] twice when it returns from a
    non-empty buffer (the housekeeping Event and the Event that resumes),
    once when it raises, and not at all on an empty buffer. *)
Theorem flush_reads_of_the_monotonic_clock (w : World) :
  perf_reads (clock (flush strftime w).2) =
  perf_reads (clock w) +
  (if decide (events (self w) = []) then 0
   else match (flush strftime w).1 with Ok _ => 2 | Raise _ => 1 end).
Proof.
  destruct (flush_cases w) as [Hevs|Hevs ?|j Hj|Hevs|Hevs]; cbn [fst snd].
  - rewrite decide_True by done. lia.
  - rewrite decide_False by done. cbn. lia.
  - rewrite decide_False by (intros E; rewrite E in Hj; simpl in Hj; lia).
    cbn. lia.
  - rewrite decide_False by done. cbn. lia.
  - rewrite decide_False by done. unfold flushed.
    destruct (last (events (self w))) eqn:Hlast.
    + cbn. lia.
    + by apply last_None in Hlast.
Qed.


(** ** Sessions on a store that accepts every call *)

Lemma call_healthy (c : Call) (w : World) :
  healthy (db (self w)) →
  (call strftime c w).1 = Ok tt ∧
  healthy (db (self (call strftime c w).2)) ∧
  (pending (db (self w)) = [] →
   pending (db (self (call strftime c w).2)) = []).
Proof.
  intros Hw. destruct c as [state comment records|]; cbn [call].
  - by rewrite append_run.
  - rewrite flush_healthy_any by done. cbn [fst snd].
    split; [done|]. split; [by apply flushed_healthy|].
    unfold flushed. by destruct (last (events (self w))).
Qed.

Lemma entries_of_rows (p : Profiler) (l : list Event.t) (x : Event.t) :
  omap entry_of_row (rows strftime p (l ++ [x])) = entry_of_event <$> l.
Proof.
  induction l as [|e l IH]; [done|].
  destruct l as [|e' l]; [done|].
  change ((e :: e' :: l) ++ [x]) with (e :: e' :: (l ++ [x])).
  rewrite rows_cons. cbn [omap list_omap entry_of_row row_of].
  rewrite fmap_cons. f_equal. apply IH.
Qed.

Lemma last_entry (l : list Event.t)
    (pre : list (string * option string * option Z)) (e : Event.t) :
  last l = Some e →
  last (pre ++ (entry_of_event <$> l)) = Some (entry_of_event e).
Proof.
  intros [l' ->]%last_Some. rewrite fmap_app.
  change (entry_of_event <$> [e]) with [entry_of_event e].
  by rewrite app_assoc, last_snoc.
Qed.

Lemma entered_run (base : list (string * option string * option Z))
    (cs : list Call) :
  ∀ (w : World) (pre : list (string * option string * option Z)),
    healthy (db (self w)) →
    pending (db (self w)) = [] →
    omap entry_of_row (committed (db (self w))) = base ++ pre →
    (events (self w) = [] → pre = []) →
    omap entry_of_row (committed (db (self (run_calls strftime cs w)))) ++
    (entry_of_event <$> events (self (run_calls strftime cs w))) =
    base ++ entered (pre ++ (entry_of_event <$> events (self w))) cs.
Proof.
  induction cs as [|c cs IH]; intros w pre Hw Hpending Hrows Hpre.
  { cbn [run_calls foldl entered]. by rewrite Hrows, app_assoc. }
  change (run_calls strftime (c :: cs) w) with
    (run_calls strftime cs (call strftime c w).2).
  destruct c as [state comment records|]; cbn [call entered].
  - rewrite append_run. cbn [snd].
    rewrite (IH (appended state comment records w) pre); [|done..|].
    + change (events (self (appended state comment records w))) with
        (events (self w) ++ [new_event state comment records w]).
      by rewrite fmap_app, app_assoc.
    + intros Hevs. exfalso.
      change (events (self w) ++ [new_event state comment records w] = [])
        in Hevs.
      by destruct (events (self w)).
  - rewrite flush_healthy_any by done. cbn [snd].
    destruct (last (events (self w))) as [e|] eqn:Hlast.
    + rewrite (last_entry _ pre e Hlast).
      destruct (flushed_committed w e Hlast) as [Hc Hp].
      rewrite (IH (flushed strftime w)
                 (pre ++ (entry_of_event <$> events (self w))));
        [|by apply flushed_healthy|done| |].
      * by rewrite (flushed_events w e).
      * rewrite Hc, Hpending, !omap_app, Hrows, entries_of_rows.
        cbn [omap list_omap app]. by rewrite app_assoc.
      * rewrite (flushed_events w e) by done. done.
    + apply last_None in Hlast.
      assert (flushed strftime w = w) as ->
        by (unfold flushed; by rewrite Hlast).
      rewrite (Hpre Hlast), Hlast. cbn [fmap list_fmap app last].
      rewrite (IH w []); [by rewrite Hlast|done..| |done].
      by rewrite Hrows, (Hpre Hlast).
Qed.

(** X4: with a store that accepts every call, from an empty buffer,
    nothing a caller enters is lost, written twice or reordered: the
    rows committed so far followed by the Events still buffered carry, in
    order, the entries of the [append] calls, with the housekeeping entry
    and the re-entered active state after each [flush] of a non-empty
    buffer. *)
Theorem entries_are_kept_in_order (cs : list Call) (w : World) :
  events (self w) = [] →
  healthy (db (self w)) →
  pending (db (self w)) = [] →
  omap entry_of_row (committed (db (self (run_calls strftime cs w)))) ++
  (entry_of_event <$> events (self (run_calls strftime cs w))) =
  omap entry_of_row (committed (db (self w))) ++ entered [] cs.
Proof.
  intros Hevs Hw Hpending.
  rewrite (entered_run (omap entry_of_row (committed (db (self w)))) cs w [])
    by (done || by rewrite app_nil_r).
  by rewrite Hevs.
Qed.


(** ** The intervals in the store *)

Lemma chain_app (l1 l2 : list (string * string)) (x y : string) :
  chain x l1 = Some y → chain x (l1 ++ l2) = chain y l2.
Proof.
  revert x. induction l1 as [|[a b] l1 IH]; intros x; cbn [chain app].
  - by intros [= ->].
  - case_decide; [|done]. apply IH.
Qed.

Lemma chain_lookup (l : list (string * string)) (x y : string) (i : nat)
    (r r' : string * string) :
  chain x l = Some y → l !! i = Some r → l !! S i = Some r' → r.2 = r'.1.
Proof.
  revert x i. induction l as [|[a b] l IH]; intros x i; [done|].
  cbn [chain]. case_decide; [|done]. intros Hchain Hr Hr'.
  destruct i as [|i]; [|by eapply IH].
  destruct l as [|[a' b'] l]; [done|]. simplify_eq/=.
  by case_decide.
Qed.

(** The rows of one flush form a chain from the start of the first Event
    to the start of the last. *)
Lemma chain_rows (p : Profiler) (e : Event.t) (l : list Event.t) :
  chain (strftime (wall_clock p (Event.start e)))
    (omap interval (rows strftime p (e :: l))) =
  Some (strftime (wall_clock p
                    (Event.start (default e (last (e :: l)))))).
Proof.
  revert e. induction l as [|e' l IH]; intros e; [done|].
  rewrite rows_cons. cbn [omap list_omap interval row_of chain].
  rewrite decide_True by done. rewrite IH.
  change (last (e :: e' :: l)) with (last (e' :: l)).
  destruct (last (e' :: l)) eqn:Hlast; [done|].
  by apply last_None in Hlast.
Qed.

(** what holds of the store between two calls, on a store that accepts
    every call *)
Lemma chain_run (cs : list Call) :
  ∀ w : World,
    healthy (db (self w)) →
    pending (db (self w)) = [] →
    (events (self w) = [] →
     omap interval (committed (db (self w))) = []) →
    (∀ e0, head (events (self w)) = Some e0 →
           ∃ a, chain a (omap interval (committed (db (self w)))) =
                Some (strftime (wall_clock (self w) (Event.start e0)))) →
    ∃ a z, chain a (omap interval
                      (committed (db (self (run_calls strftime cs w))))) =
           Some z.
Proof.
  induction cs as [|c cs IH]; intros w Hw Hpending Hnone Hchain.
  { cbn [run_calls foldl]. destruct (events (self w)) as [|e0 l] eqn:Hevs.
    - rewrite Hnone by done. by exists "", "".
    - destruct (Hchain e0 eq_refl) as [a Ha]. by eexists _, _. }
  change (run_calls strftime (c :: cs) w) with
    (run_calls strftime cs (call strftime c w).2).
  destruct c as [state comment records|]; cbn [call].
  - rewrite append_run. cbn [snd]. apply IH; [done..| |].
    + intros Hevs. exfalso.
      change (events (self w) ++ [new_event state comment records w] = [])
        in Hevs.
      by destruct (events (self w)).
    + intros e0.
      change (events (self (appended state comment records w))) with
        (events (self w) ++ [new_event state comment records w]).
      change (db (self (appended state comment records w))) with
        (db (self w)).
      change (wall_clock (self (appended state comment records w))) with
        (wall_clock (self w)).
      destruct (events (self w)) as [|e1 l] eqn:Hevs.
      * intros [= <-]. rewrite Hnone by done. by eexists.
      * intros [= <-]. by apply Hchain.
  - rewrite flush_healthy_any by done. cbn [snd].
    destruct (last (events (self w))) as [e|] eqn:Hlast.
    2:{ apply last_None in Hlast.
        assert (flushed strftime w = w) as ->
          by (unfold flushed; by rewrite Hlast).
        by apply IH. }
    destruct (flushed_committed w e Hlast) as [Hc Hp].
    apply IH; [by apply flushed_healthy|done| |].
    + by rewrite (flushed_events w e).
    + rewrite (flushed_events w e) by done. intros e0 [= <-].
      rewrite Hc, Hpending. cbn [app]. rewrite omap_app.
      destruct (events (self w)) as [|e1 l] eqn:Hevs; [done|].
      destruct (Hchain e1 eq_refl) as [a Ha]. exists a.
      rewrite (chain_app _ _ _ _ Ha).
      change ((e1 :: l) ++ [housekeeping w]) with
        (e1 :: (l ++ [housekeeping w])).
      rewrite chain_rows.
      change (last (e1 :: l ++ [housekeeping w])) with
        (last ((e1 :: l) ++ [housekeeping w])).
      rewrite last_snoc. cbn [default].
      unfold flushed. rewrite Hevs, Hlast. reflexivity.
Qed.

(** X5: with a store that accepts every call, from an empty buffer the
    rows of profiler.events that a session commits leave no gap and do
    not overlap, within one [flush] and from one [flush] to the next: the
    [ended] column of each row is the [started] column of the row after
    it. *)
Theorem committed_intervals_are_contiguous (cs : list Call) (w : World) :
  events (self w) = [] →
  healthy (db (self w)) →
  pending (db (self w)) = [] →
  omap interval (committed (db (self w))) = [] →
  ∀ i r r',
    omap interval (committed (db (self (run_calls strftime cs w)))) !! i =
      Some r →
    omap interval (committed (db (self (run_calls strftime cs w)))) !! S i =
      Some r' →
    r.2 = r'.1.
Proof.
  intros Hevs Hw Hpending Hnone i r r'.
  destruct (chain_run cs w) as (a & z & Hchain); [done..| |].
  - intros e0. by rewrite Hevs.
  - by apply (chain_lookup _ a z).
Qed.

Lemma rows_lookup_inv (p : Profiler) (l : list Event.t) (i : nat)
    (row : Stmt) :
  rows strftime p l !! i = Some row →
  ∃ a b, l !! i = Some a ∧ l !! S i = Some b ∧
         row = row_of strftime p a (Event.start b).
Proof.
  revert i. induction l as [|e l IH]; intros i; [done|].
  destruct l as [|e' l]; [done|]. rewrite rows_cons.
  destruct i as [|i].
  - intros [= <-]. by exists e, e'.
  - intros Hrow. by apply IH.
Qed.

(** X6: under a clock that never goes back, no row that a [flush]
    commits has a negative duration: each new row is the row of a
    buffered Event and ends, in wall-clock time, at or after its start. *)
Theorem committed_intervals_are_not_negative (w0 : World) (cs : list Call)
    (e : Event.t) :
  events (self w0) = [] →
  monotonic (clock w0) →
  let w := run_calls strftime cs w0 in
  last (events (self w)) = Some e →
  healthy (db (self w)) →
  ∃ new_rows,
    committed (db (self (flush strftime w).2)) =
      committed (db (self w)) ++ pending (db (self w)) ++ new_rows ∧
    ∀ i row,
      new_rows !! i = Some row →
      ∃ a t_end,
        events (self w) !! i = Some a ∧
        row = row_of strftime (self w) a t_end ∧
        (wall_clock (self w) (Event.start a) ≤ wall_clock (self w) t_end)%Z.
Proof.
  intros Hevs Hmono w Hlast Hw. eexists.
  rewrite (flush_healthy w e) by done. cbn [snd].
  destruct (flushed_committed w e Hlast) as [-> _]. split; [done|].
  intros i row Hrow.
  pose proof (lookup_lt_Some _ _ _ Hrow) as Hi.
  rewrite rows_length, length_app in Hi. cbn [length] in Hi.
  apply rows_lookup_inv in Hrow as (a & b & Ha & Hb & ->).
  exists a, (Event.start b). rewrite lookup_app_l in Ha by lia.
  split; [done|]. split; [done|]. unfold wall_clock.
  assert (Event.start a ≤ Event.start b)%Z; [|lia].
  apply (in_order_lookup (flush_begun w) i (S i)); [|lia| |].
  - apply in_order_appended.
    by apply in_order_run_calls, in_order_initial.
  - rewrite flush_begun_events. by rewrite lookup_app_l by lia.
  - by rewrite flush_begun_events.
Qed.


(** ** The [with] block and what follows it *)

(** X7: [__exit__] returns [None], so the context manager swallows
    nothing.  When the store accepts every call of [__exit__], the block
    ends as its body ended, with the value the body returned or the
    exception it raised, and the connection is closed. *)
Theorem with_block_ends_as_its_body {A} (body : M World A) (w : World) :
  healthy (db (self (body w).2)) →
  (with_profiler strftime body w).1 = (body w).1 ∧
  closed (db (self (with_profiler strftime body w).2)) = true.
Proof.
  intros Hw. unfold with_profiler.
  destruct (body w) as [[a|e] w1]; cbn [fst snd] in *;
    by rewrite exit_run by done.
Qed.

(** X8: [__exit__] leaves Events behind.  With a store that accepts
    every call and a non-empty buffer, the buffer after [__exit__] still
    holds the two Events of its [flush], the housekeeping Event and the
    Event that resumed the active state; nothing writes them. *)
Theorem exit_leaves_two_events (w : World) (exc : option exn)
    (e : Event.t) :
  last (events (self w)) = Some e →
  healthy (db (self w)) →
  let t := perf (clock w) (S (perf_reads (clock w))) in
  events (self (__exit__ strftime exc w).2) =
  [housekeeping w;
   Event.mk (Event.state e) (Event.comment e) (Event.records e) t (Some t)].
Proof.
  intros Hlast Hw. cbn zeta. rewrite exit_run by done. cbn [snd].
  rewrite events_with_db. by apply flushed_events.
Qed.

(** X9: a Profiler is of no use to the store once [__exit__] has
    returned.  A second [__exit__] raises InterfaceError and commits
    nothing; [flush] raises InterfaceError when the buffer is not
    empty, after adding one more housekeeping Event to it; [append]
    goes on as before. *)
Theorem use_after_exit (w : World) (exc exc' : option exn)
    (state : string) (comment : option string) (records : option Z) :
  healthy (db (self w)) →
  let w1 := (__exit__ strftime exc w).2 in
  (__exit__ strftime exc' w1).1 = Raise InterfaceError ∧
  committed (db (self (__exit__ strftime exc' w1).2)) =
    committed (db (self w1)) ∧
  (events (self w) ≠ [] →
   (flush strftime w1).1 = Raise InterfaceError ∧
   committed (db (self (flush strftime w1).2)) = committed (db (self w1)) ∧
   length (events (self (flush strftime w1).2)) = 3) ∧
  (append state comment records w1).1 = Ok tt.
Proof.
  intros Hw. cbn zeta. rewrite (exit_run w exc) by done. cbn [snd].
  set (w1 := with_db _ (flushed strftime w)).
  assert (closed (db (self w1)) = true) as Hclosed by done.
  assert (events (self w) ≠ [] →
          ∃ e1, last (events (self w1)) = Some e1 ∧
                length (events (self w1)) = 2) as Hbuffer.
  { intros Hne. destruct (last (events (self w))) as [e|] eqn:Hlast;
      [|by apply last_None in Hlast].
    unfold w1. rewrite events_with_db, (flushed_events w e) by done.
    by eexists. }
  split; [|split; [|split]].
  - unfold __exit__.
    destruct (last (events (self w1))) as [e1|] eqn:Hlast1.
    + by rewrite (bind_raise _ _ _ _ _ (flush_closed w1 e1 Hlast1 Hclosed)).
    + apply last_None in Hlast1.
      rewrite (bind_ok _ _ _ _ _ (flush_empty w1 Hlast1)).
      by rewrite (bind_raise _ _ _ _ _ (on_db_cursor_closed w1 Hclosed)).
  - unfold __exit__.
    destruct (last (events (self w1))) as [e1|] eqn:Hlast1.
    + by rewrite (bind_raise _ _ _ _ _ (flush_closed w1 e1 Hlast1 Hclosed)).
    + apply last_None in Hlast1.
      rewrite (bind_ok _ _ _ _ _ (flush_empty w1 Hlast1)).
      by rewrite (bind_raise _ _ _ _ _ (on_db_cursor_closed w1 Hclosed)).
  - intros Hne. destruct (Hbuffer Hne) as (e1 & Hlast1 & Hlen).
    rewrite (flush_closed w1 e1 Hlast1 Hclosed). cbn [fst snd].
    split; [done|]. split; [done|].
    rewrite flush_begun_events, length_app, Hlen. done.
  - by rewrite append_run.
Qed.

(** ** Construction *)

(** X10: [Profiler(name, **kwargs)] without a "user" raises
    KeyError('user'), with a "user" but no "password" it raises
    KeyError('password'); in both cases before any connection is tried,
    whatever [psycopg2.connect] would do, and without reading a clock. *)
Theorem init_needs_user_and_password
    (connect : string → string → string → string → result Connection)
    (name : string) (kwargs : gmap string string) (c : Clock) :
  (kwargs !! "user" = None →
   __init__ connect name kwargs c = (Raise (KeyError "user"), c)) ∧
  (is_Some (kwargs !! "user") → kwargs !! "password" = None →
   __init__ connect name kwargs c = (Raise (KeyError "password"), c)).
Proof.
  unfold __init__, connect_to_db, kwarg. split.
  - by intros ->.
  - by intros [user ->] ->.
Qed.


Lemma create_new_profile_run (name : string) (comment : option string)
    (conn : Connection) :
  closed conn = false →
  fault_plan conn (calls conn) = false →
  fault_plan conn (S (calls conn)) = false →
  create_new_profile name comment conn =
  (Ok (next_id conn),
   mkConnection
     (committed conn ++ pending conn ++ [InsertProfile name comment]) []
     (next_id conn + 1) false (fault_plan conn) (S (S (calls conn)))).
Proof.
  intros Hopen Hplan Hplan'.
  unfold create_new_profile, bind, Db.cursor, Db.execute, Db.fetchone_0,
    Db.commit, Db.cursor_close, ret.
  rewrite Hopen. cbn. rewrite Hopen, Hplan. cbn. rewrite Hplan'.
  done.
Qed.

(** X11: what a successful construction does.  With "user" and
    "password" given, the connection is asked for with the defaults
    "quanta" and "localhost" for a missing "dbname" and "host"; on a
    connection that accepts the insert and the commit, one row
    (name, kwargs.get("comment")) is committed to profiler.profiles, [pid]
    is the id the insert returned, the buffer is empty, [start] and
    [created] are two successive readings of the wall clock and [offset]
    is one reading of the monotonic clock. *)
Theorem init_registers_the_profile
    (connect : string → string → string → string → result Connection)
    (title user password : string) (kwargs : gmap string string)
    (conn : Connection) (c : Clock) :
  kwargs !! "user" = Some user →
  kwargs !! "password" = Some password →
  connect user (default "quanta" (kwargs !! "dbname")) password
    (default "localhost" (kwargs !! "host")) = Ok conn →
  closed conn = false →
  fault_plan conn (calls conn) = false →
  fault_plan conn (S (calls conn)) = false →
  ∃ p c',
    __init__ connect title kwargs c = (Ok p, c') ∧
    name p = title ∧
    pid p = next_id conn ∧
    events p = [] ∧
    committed (db p) =
      committed conn ++ pending conn ++
      [InsertProfile title (kwargs !! "comment")] ∧
    pending (db p) = [] ∧
    closed (db p) = false ∧
    start p = wall c (wall_reads c) ∧
    offset p = perf c (perf_reads c) ∧
    created p = wall c (S (wall_reads c)) ∧
    perf_reads c' = S (perf_reads c) ∧
    wall_reads c' = S (S (wall_reads c)).
Proof.
  intros Huser Hpassword Hconnect Hopen Hplan Hplan'.
  unfold __init__, connect_to_db, kwarg.
  rewrite Huser, Hpassword, Hconnect.
  rewrite create_new_profile_run by done.
  eexists _, _. split; [reflexivity|]. done.
Qed.

(** X12: when the store refuses the insert into profiler.profiles or
    the commit after it, the construction raises DatabaseError: there is
    no Profiler, and no clock has been read. *)
Theorem init_fails_with_the_store
    (connect : string → string → string → string → result Connection)
    (name : string) (kwargs : gmap string string) (conn : Connection)
    (c : Clock) :
  connect_to_db connect kwargs = Ok conn →
  closed conn = false →
  fault_plan conn (calls conn) = true ∨
  fault_plan conn (S (calls conn)) = true →
  __init__ connect name kwargs c = (Raise DatabaseError, c).
Proof.
  intros Hconnect Hopen Hfault. unfold __init__. rewrite Hconnect.
  unfold create_new_profile, bind, Db.cursor, Db.execute, Db.fetchone_0,
    Db.commit, Db.cursor_close, ret.
  rewrite Hopen. cbn. rewrite Hopen.
  destruct (fault_plan conn (calls conn)) eqn:Hfirst; [done|].
  destruct Hfault as [|Hsecond]; [done|].
  cbn. by rewrite Hsecond.
Qed.

(** X13: a connection that cannot be made leaves no Profiler: the
    exception of [psycopg2.connect] is the exception of the construction,
    and nothing has been read from a clock. *)
Theorem init_fails_with_the_connection
    (connect : string → string → string → string → result Connection)
    (name user password : string) (kwargs : gmap string string)
    (e : exn) (c : Clock) :
  kwargs !! "user" = Some user →
  kwargs !! "password" = Some password →
  connect user (default "quanta" (kwargs !! "dbname")) password
    (default "localhost" (kwargs !! "host")) = Raise e →
  __init__ connect name kwargs c = (Raise e, c).
Proof.
  intros Huser Hpassword Hconnect. unfold __init__, connect_to_db, kwarg.
  by rewrite Huser, Hpassword, Hconnect.
Qed.


(** ** The script *)






(** ** What [flush] and [append] can raise *)

(** X15: [flush] raises nothing of its own.  Its accesses
    [self.events[-1]], [self.events[i]] and [self.events[i+1]] are always
    in range and every [end] it converts is set, so no IndexError or
    TypeError leaves it: when it raises, it is InterfaceError on a closed
    connection or DatabaseError on an open one, and in both cases the
    buffer was not empty. *)
Theorem flush_raises_only_store_errors (w : World) (e : exn) :
  (flush strftime w).1 = Raise e →
  events (self w) ≠ [] ∧
  (e = InterfaceError ∧ closed (db (self w)) = true ∨
   e = DatabaseError ∧ closed (db (self w)) = false).
Proof.
  destruct (flush_cases w) as [Hevs|Hevs ?|j Hj|Hevs|Hevs]; cbn [fst];
    intros [= <-].
  - split; [done|]. by left.
  - split; [|by right].
    intros E. rewrite E in Hj. cbn [length] in Hj. lia.
  - split; [done|]. by right.
Qed.

(** X16: under a clock that never goes back, whatever calls of [append]
    and [flush] a caller makes from an empty buffer and whatever the store
    does, an [end] that is set is never before the [start] of its
    Event. *)
Theorem set_ends_are_not_before_starts (w0 : World) (cs : list Call)
    (i : nat) (e : Event.t) (t : Z) :
  events (self w0) = [] →
  monotonic (clock w0) →
  events (self (run_calls strftime cs w0)) !! i = Some e →
  Event.end_ e = Some t →
  (Event.start e ≤ t)%Z.
Proof.
  intros Hevs Hmono He Ht.
  destruct (in_order_run_calls cs w0) as (_ & _ & Hends);
    [by apply in_order_initial|].
  by eapply (Forall_lookup_1 _ _ _ _ Hends He).
Qed.

(** X17: with a store that accepts every call, a session never raises:
    run as a Python block, where the first exception would end it, the
    calls of [append] and [flush] all return; the store still accepts
    every call afterwards and no statement is left uncommitted. *)
Theorem healthy_session_never_raises (cs : list Call) (w : World) :
  healthy (db (self w)) →
  pending (db (self w)) = [] →
  for_each cs (call strftime) w = (Ok tt, run_calls strftime cs w) ∧
  healthy (db (self (run_calls strftime cs w))) ∧
  pending (db (self (run_calls strftime cs w))) = [].
Proof.
  revert w. induction cs as [|c cs IH]; intros w Hw Hpending; [done|].
  change (run_calls strftime (c :: cs) w) with
    (run_calls strftime cs (call strftime c w).2).
  destruct (call_healthy c w Hw) as (Hok & Hw' & Hp').
  destruct (IH (call strftime c w).2 Hw' (Hp' Hpending)) as (Hrun & ? & ?).
  split; [|done]. cbn [for_each].
  destruct (call strftime c w) as [[[]|e] w'] eqn:Hcall; [|done].
  by erewrite bind_ok by exact Hcall.
Qed.


End Properties.

(** * The sample session *)

Lemma init_sample :
  __init__ sample_connect "Test" sample_kwargs sample_clock =
  (Ok (self sample_world), clock sample_world).
Proof. reflexivity. Qed.

Lemma append_closes_the_new_event_witness :
  let evs' := events (self (append "Run #1" None (Some 200%Z)
                              sample_first).2) in
  evs' = events (self sample_first) ++
         [Event.mk "Run #1" None (Some 200%Z) (now sample_first)
            (Some (now sample_first))] ∧
  evs' !! (length (events (self sample_first)) - 1) =
  Some (Event.mk "Run #0" None (Some 100%Z) 10 None).
Proof.
  apply (append_closes_the_new_event "Run #1" None (Some 200%Z)
           sample_first (Event.mk "Run #0" None (Some 100%Z) 10 None)).
  reflexivity.
Defined.

Lemma two_appends_break_the_invariant_witness :
  ∃ a b,
    events (self sample_running) = [a; b] ∧
    Event.end_ a = None ∧
    Event.end_ b = Some (Event.start b).
Proof.
  apply (two_appends_break_the_invariant sample_strftime sample_world
           "Run #0" "Run #1" None None (Some 100%Z) (Some 200%Z)).
  reflexivity.
Defined.

Lemma flush_of_empty_buffer_is_noop_witness :
  flush sample_strftime sample_world = (Ok tt, sample_world).
Proof. apply flush_of_empty_buffer_is_noop. reflexivity. Defined.

Lemma flush_persists_the_buffer_witness :
  (flush sample_strftime sample_running).1 = Ok tt ∧
  length (events (self (flush sample_strftime sample_running).2)) = 2.
Proof.
  destruct (flush_persists_the_buffer sample_strftime sample_running
              (Event.mk "Run #1" None (Some 200%Z) 20 (Some 20%Z)))
    as (Hok & _ & _ & _ & _ & _ & Hevs).
  - reflexivity.
  - split; [reflexivity|]. intros i. reflexivity.
  - split; [exact Hok|]. rewrite Hevs. reflexivity.
Defined.

Lemma flush_stated_counterexample :
  ¬ stated_flush sample_strftime sample_running.
Proof.
  intros (new_rows & e & e' & _ & _ & _ & _ & Hevs & _).
  vm_compute in Hevs. discriminate Hevs.
Qed.

Lemma flush_failure_changes_the_buffer_witness :
  let w := failing_at 1 sample_running in
  let w' := (flush sample_strftime w).2 in
  (flush sample_strftime w).1 = Raise DatabaseError ∧
  committed (db (self w')) = committed (db (self w)) ∧
  (1 < length (events (self w)) →
     events (self w') =
       close_prefix 2 (events (self w) ++ [housekeeping w]) ∧
     length (events (self w')) = S (length (events (self w)))) ∧
  (1 = length (events (self w)) → events (self w') = [housekeeping w]).
Proof.
  apply (flush_failure_changes_the_buffer sample_strftime
           (failing_at 1 sample_running)
           (Event.mk "Run #1" None (Some 200%Z) 20 (Some 20%Z)) 1).
  - reflexivity.
  - reflexivity.
  - vm_compute. lia.
  - intros i Hi. destruct i; [reflexivity|lia].
  - reflexivity.
Defined.

Lemma flush_failure_stated_counterexample :
  ¬ stated_flush_failure sample_strftime (failing_at 0 sample_running).
Proof.
  intros H. destruct (H DatabaseError) as [_ Hevs]; [reflexivity|].
  vm_compute in Hevs. discriminate Hevs.
Qed.

Lemma scenario_persists_both_runs_witness :
  let w' := run_calls sample_strftime
              [CallAppend "Run #0" None (Some 100%Z);
               CallAppend "Run #1" None (Some 200%Z);
               CallFlush] sample_world in
  committed (db (self w')) =
    [InsertProfile "Test" (Some "Sunday afternoon");
     InsertEvent 1 "Run #0" "1011" "1021" (Some 100%Z) None;
     InsertEvent 1 "Run #1" "1021" "1031" (Some 200%Z) None] ∧
  events (self w') =
    [Event.mk "Profiler Housekeeping" None None 30 (Some 30%Z);
     Event.mk "Run #1" None (Some 200%Z) 40 (Some 40%Z)].
Proof.
  apply (scenario_persists_both_runs sample_strftime sample_world).
  - reflexivity.
  - split; [reflexivity|]. intros i. reflexivity.
Defined.

Lemma scenario_stated_counterexample :
  ¬ stated_scenario sample_strftime sample_world.
Proof.
  intros (new_rows & ev & _ & _ & _ & _ & Hevs & _).
  vm_compute in Hevs. discriminate Hevs.
Qed.

Lemma second_flush_persists_two_rows_witness :
  let w1 := (flush sample_strftime sample_running).2 in
  let w2 := (flush sample_strftime w1).2 in
  length (events (self w1)) = 2 ∧
  length (committed (db (self w2))) = length (committed (db (self w1))) + 2.
Proof.
  destruct (second_flush_persists_two_rows sample_strftime sample_running)
    as (_ & _ & _ & Hrows).
  - split; [reflexivity|]. intros i. reflexivity.
  - destruct (Hrows (Event.mk "Run #1" None (Some 200%Z) 20 (Some 20%Z))
                eq_refl) as (hk & resumed & t_end & Hevs & _ & _ & Hdb).
    cbn zeta. rewrite Hevs, Hdb, length_app. split; reflexivity.
Defined.

Lemma second_flush_stated_counterexample :
  ¬ stated_second_flush sample_strftime sample_running.
Proof.
  intros [Hlen _]. vm_compute in Hlen. discriminate Hlen.
Qed.

Lemma wall_clock_conversion_witness :
  (wall_clock (self sample_running) 10 ≤
   wall_clock (self sample_running) 20)%Z.
Proof.
  destruct (wall_clock_conversion sample_strftime sample_world
              [CallAppend "Run #0" None (Some 100%Z);
               CallAppend "Run #1" None (Some 200%Z)])
    as (_ & _ & Horder).
  - reflexivity.
  - intros n. cbn. lia.
  - apply (Horder 0 1 (Event.mk "Run #0" None (Some 100%Z) 10 None)
             (Event.mk "Run #1" None (Some 200%Z) 20 (Some 20%Z)));
      [lia|reflexivity|reflexivity].
Defined.

Lemma exit_closes_the_profile_witness :
  (__exit__ sample_strftime None sample_running).1 = Ok tt ∧
  closed (db (self (__exit__ sample_strftime None sample_running).2)) = true.
Proof.
  destruct (exit_closes_the_profile sample_strftime sample_running None)
    as (_ & Hhealthy & _).
  - reflexivity.
  - destruct Hhealthy as (Hok & _ & _ & Hclosed).
    + split; [reflexivity|]. intros i. reflexivity.
    + split; [exact Hok|exact Hclosed].
Defined.

Lemma exit_stated_counterexample :
  ¬ stated_exit sample_strftime (failing_at 0 sample_running).
Proof.
  intros H. specialize (H None). vm_compute in H. discriminate H.
Qed.

(** * The sample session, further *)

Lemma script_on_sample :
  (script sample_strftime sample_connect sample_clock).1 = Ok tt.
Proof. reflexivity. Qed.

Lemma entries_are_kept_in_order_witness :
  let w := run_calls sample_strftime sample_calls sample_world in
  omap entry_of_row (committed (db (self w))) ++
  (entry_of_event <$> events (self w)) =
  omap entry_of_row (committed (db (self sample_world))) ++
  entered [] sample_calls.
Proof.
  apply (entries_are_kept_in_order sample_strftime sample_calls
           sample_world); reflexivity || (split; [reflexivity|]; intros i;
                                          reflexivity).
Defined.

Lemma committed_intervals_are_contiguous_witness :
  let ivs := omap interval
               (committed
                  (db (self (run_calls sample_strftime
                               (sample_calls ++ [CallFlush])
                               sample_world)))) in
  ivs !! 1 = Some ("1021", "1031") ∧
  ivs !! 2 = Some ("1031", "1041") ∧
  ("1021", "1031").2 = ("1031", "1041").1.
Proof.
  split; [reflexivity|]. split; [reflexivity|].
  apply (committed_intervals_are_contiguous sample_strftime
           (sample_calls ++ [CallFlush]) sample_world) with (i := 1).
  - reflexivity.
  - split; [reflexivity|]. intros i. reflexivity.
  - reflexivity.
  - reflexivity.
  - reflexivity.
  - reflexivity.
Defined.

Lemma committed_intervals_are_not_negative_witness :
  ∃ new_rows,
    committed (db (self (flush sample_strftime sample_running).2)) =
      committed (db (self sample_running)) ++
      pending (db (self sample_running)) ++ new_rows ∧
    ∀ i row,
      new_rows !! i = Some row →
      ∃ a t_end,
        events (self sample_running) !! i = Some a ∧
        row = row_of sample_strftime (self sample_running) a t_end ∧
        (wall_clock (self sample_running) (Event.start a) ≤
         wall_clock (self sample_running) t_end)%Z.
Proof.
  apply (committed_intervals_are_not_negative sample_strftime sample_world
           [CallAppend "Run #0" None (Some 100%Z);
            CallAppend "Run #1" None (Some 200%Z)]
           (Event.mk "Run #1" None (Some 200%Z) 20 (Some 20%Z))).
  - reflexivity.
  - intros n. cbn. lia.
  - reflexivity.
  - split; [reflexivity|]. intros i. reflexivity.
Defined.

Lemma with_block_ends_as_its_body_witness :
  (with_profiler sample_strftime
     (append "Run #2" None None ;; raise (KeyError "rows"))
     sample_running).1 = (Raise (KeyError "rows") : result unit) ∧
  closed (db (self (with_profiler sample_strftime
                      (append "Run #2" None None ;;
                       raise (KeyError "rows") : M World unit)
                      sample_running).2)) = true.
Proof.
  apply (with_block_ends_as_its_body sample_strftime
           (append "Run #2" None None ;; raise (KeyError "rows"))
           sample_running).
  split; [reflexivity|]. intros i. reflexivity.
Defined.

Lemma exit_leaves_two_events_witness :
  events (self (__exit__ sample_strftime None sample_running).2) =
  [Event.mk "Profiler Housekeeping" None None 30 (Some 30%Z);
   Event.mk "Run #1" None (Some 200%Z) 40 (Some 40%Z)].
Proof.
  apply (exit_leaves_two_events sample_strftime sample_running None
           (Event.mk "Run #1" None (Some 200%Z) 20 (Some 20%Z))).
  - reflexivity.
  - split; [reflexivity|]. intros i. reflexivity.
Defined.

Lemma use_after_exit_witness :
  let w1 := (__exit__ sample_strftime None sample_running).2 in
  (__exit__ sample_strftime None w1).1 = Raise InterfaceError ∧
  (flush sample_strftime w1).1 = Raise InterfaceError.
Proof.
  destruct (use_after_exit sample_strftime sample_running None None
              "Run #2" None None) as (Hexit & _ & Hflush & _).
  - split; [reflexivity|]. intros i. reflexivity.
  - split; [exact Hexit|]. apply Hflush. discriminate.
Defined.

Lemma init_registers_the_profile_witness :
  ∃ p c',
    __init__ sample_connect "Test" sample_kwargs sample_clock = (Ok p, c') ∧
    name p = "Test" ∧
    pid p = 1%Z ∧
    events p = [] ∧
    committed (db p) = [InsertProfile "Test" (Some "Sunday afternoon")].
Proof.
  destruct (init_registers_the_profile sample_connect "Test" "tim"
              "swordfish123" sample_kwargs sample_store sample_clock)
    as (p & c' & Hrun & Hname & Hpid & Hevs & Hcommitted & _);
    [reflexivity..|].
  exists p, c'. split; [exact Hrun|]. split; [exact Hname|].
  split; [exact Hpid|]. split; [exact Hevs|]. exact Hcommitted.
Defined.

Lemma init_fails_with_the_store_witness :
  __init__ sample_refusing_connect "Test" sample_kwargs sample_clock =
  (Raise DatabaseError, sample_clock).
Proof.
  apply (init_fails_with_the_store sample_refusing_connect "Test"
           sample_kwargs
           (mkConnection [] [] 1 false (λ i, bool_decide (i = 0)) 0)).
  - reflexivity.
  - reflexivity.
  - left. reflexivity.
Defined.

Lemma init_fails_with_the_connection_witness :
  __init__ sample_unreachable_connect "Test" sample_kwargs sample_clock =
  (Raise DatabaseError, sample_clock).
Proof.
  apply (init_fails_with_the_connection sample_unreachable_connect "Test"
           "tim" "swordfish123" sample_kwargs); reflexivity.
Defined.


Lemma flush_raises_only_store_errors_witness :
  events (self (failing_at 0 sample_running)) ≠ [] ∧
  (DatabaseError = InterfaceError ∧
   closed (db (self (failing_at 0 sample_running))) = true ∨
   DatabaseError = DatabaseError ∧
   closed (db (self (failing_at 0 sample_running))) = false).
Proof.
  apply (flush_raises_only_store_errors sample_strftime
           (failing_at 0 sample_running) DatabaseError).
  reflexivity.
Defined.

Lemma set_ends_are_not_before_starts_witness :
  (Event.start (Event.mk "Run #1" None (Some 200%Z) 20 (Some 20%Z)) ≤ 20)%Z.
Proof.
  apply (set_ends_are_not_before_starts sample_strftime sample_world
           [CallAppend "Run #0" None (Some 100%Z);
            CallAppend "Run #1" None (Some 200%Z)] 1
           (Event.mk "Run #1" None (Some 200%Z) 20 (Some 20%Z)) 20).
  - reflexivity.
  - intros n. cbn. lia.
  - reflexivity.
  - reflexivity.
Defined.

Lemma healthy_session_never_raises_witness :
  for_each sample_calls (call sample_strftime) sample_world =
  (Ok tt, run_calls sample_strftime sample_calls sample_world) ∧
  healthy (db (self (run_calls sample_strftime sample_calls sample_world))) ∧
  pending (db (self (run_calls sample_strftime sample_calls sample_world))) =
  [].
Proof.
  apply (healthy_session_never_raises sample_strftime sample_calls
           sample_world).
  - split; [reflexivity|]. intros i. reflexivity.
  - reflexivity.
Defined.
